(** * ai-marketing: document chunking and RAG orchestration

    A shallow embedding of [app/document_processor.py] and
    [app/rag_engine.py], and the properties of the specification that
    are settled against it.

    Python [str] values are lists of Unicode code points, [bytes] values
    are lists of [Byte.byte], Python [int] is [Z].  Remote services (the
    Yandex SDK, the Gemini model, PIL) are an environment whose every
    call may return or raise; the Python objects' fields are records
    threaded through explicitly. *)

From Stdlib Require Import ZArith NArith List Lia Bool.
From Stdlib Require Strings.String Strings.Ascii Strings.Byte.
From Stdlib Require DecimalString.
From stdpp Require Import base option list countable strings gmap.

Local Open Scope Z_scope.

(** Python [str]: a sequence of code points. *)
Abbreviation str := (list N).
(** Python [bytes]. *)
Abbreviation bytes := (list Byte.byte).

(* ================================================================== *)
(** ** Codecs used by [open(path, "r", encoding=...)] *)
(* ================================================================== *)

Module Codec.

(** [latin-1]: every byte is the code point of the same value. *)
Definition latin_1_decode (b : bytes) : str := map Byte.to_N b.

Definition is_cont (b : N) : bool := ((128 <=? b) && (b <=? 191))%N.

(** Strict UTF-8 (RFC 3629): no overlong forms, no surrogates, nothing
    above U+10FFFF.  [None] stands for [UnicodeDecodeError]. *)
Fixpoint utf_8_go (b : list N) : option str :=
  match b with
  | [] => Some []
  | b0 :: r0 =>
    if (b0 <? 128)%N then cons b0 <$> utf_8_go r0
    else match r0 with
    | [] => None
    | b1 :: r1 =>
      if ((194 <=? b0) && (b0 <=? 223))%N then
        if is_cont b1
        then cons ((b0 - 192) * 64 + (b1 - 128))%N <$> utf_8_go r1
        else None
      else match r1 with
      | [] => None
      | b2 :: r2 =>
        if ((224 <=? b0) && (b0 <=? 239))%N then
          let lo := (if b0 =? 224 then 160 else 128)%N in
          let hi := (if b0 =? 237 then 159 else 191)%N in
          if ((lo <=? b1) && (b1 <=? hi))%N && is_cont b2
          then cons ((b0 - 224) * 4096 + (b1 - 128) * 64 + (b2 - 128))%N
                 <$> utf_8_go r2
          else None
        else match r2 with
        | [] => None
        | b3 :: r3 =>
          if ((240 <=? b0) && (b0 <=? 244))%N then
            let lo := (if b0 =? 240 then 144 else 128)%N in
            let hi := (if b0 =? 244 then 143 else 191)%N in
            if ((lo <=? b1) && (b1 <=? hi))%N && is_cont b2 && is_cont b3
            then cons ((b0 - 240) * 262144 + (b1 - 128) * 4096
                       + (b2 - 128) * 64 + (b3 - 128))%N
                   <$> utf_8_go r3
            else None
          else None
        end
      end
    end
  end.

Definition utf_8_decode (b : bytes) : option str :=
  utf_8_go (map Byte.to_N b).

(** [cp1251], bytes 0x80..0xBF; 0x98 is unassigned. *)
Definition cp1251_high : list (option N) :=
  map Some [1026; 1027; 8218; 1107; 8222; 8230; 8224; 8225;
            8364; 8240; 1033; 8249; 1034; 1036; 1035; 1039;
            1106; 8216; 8217; 8220; 8221; 8226; 8211; 8212]%N
  ++ [None]
  ++ map Some [8482; 1113; 8250; 1114; 1116; 1115; 1119;
            160; 1038; 1118; 1032; 164; 1168; 166; 167;
            1025; 169; 1028; 171; 172; 173; 174; 1031;
            176; 177; 1030; 1110; 1169; 181; 182; 183;
            1105; 8470; 1108; 187; 1112; 1029; 1109; 1111]%N.

Definition cp1251_char (b : N) : option N :=
  if (b <? 128)%N then Some b
  else if (b <? 192)%N then nth (N.to_nat (b - 128)) cp1251_high None
  else Some (b - 192 + 1040)%N.

Fixpoint cp1251_go (b : list N) : option str :=
  match b with
  | [] => Some []
  | b0 :: r =>
    match cp1251_char b0 with
    | Some c => cons c <$> cp1251_go r
    | None => None
    end
  end.

Definition cp1251_decode (b : bytes) : option str :=
  cp1251_go (map Byte.to_N b).

End Codec.

(* ================================================================== *)
(** ** The [str] operations the program uses *)
(* ================================================================== *)

Module PyStr.

(** A string literal of the source: the UTF-8 bytes of the Rocq
    literal, decoded. *)
Definition lit (s : String.string) : str :=
  default [] (Codec.utf_8_decode (String.list_byte_of_string s)).

Arguments lit s%_string.

Definition len (s : str) : Z := Z.of_nat (length s).

(** [str.isspace] on one code point (CPython's
    [_PyUnicode_IsWhitespace]). *)
Definition isspace (c : N) : bool :=
  (((9 <=? c) && (c <=? 13)) || ((28 <=? c) && (c <=? 32))
   || (c =? 133) || (c =? 160) || (c =? 5760)
   || ((8192 <=? c) && (c <=? 8202))
   || (c =? 8232) || (c =? 8233) || (c =? 8239) || (c =? 8287)
   || (c =? 12288))%N.

Fixpoint lstrip (s : str) : str :=
  match s with
  | [] => []
  | c :: s' => if isspace c then lstrip s' else s
  end.

Definition rstrip (s : str) : str := rev (lstrip (rev s)).

(** [s.strip()] *)
Definition strip (s : str) : str := rstrip (lstrip s).

(** Python's normalisation of one slice bound against a length. *)
Definition clamp (n i : Z) : Z :=
  if i <? 0 then Z.max 0 (i + n) else Z.min i n.

(** [s[i:j]] *)
Definition slice (s : str) (i j : Z) : str :=
  let lo := clamp (len s) i in
  let hi := clamp (len s) j in
  firstn (Z.to_nat (hi - lo)) (skipn (Z.to_nat lo) s).

(** [s[:j]] *)
Definition slice_to (s : str) (j : Z) : str := slice s 0 j.

Fixpoint startswith (p s : str) : bool :=
  match p, s with
  | [], _ => true
  | _ :: _, [] => false
  | a :: p', b :: s' => (a =? b)%N && startswith p' s'
  end.

(** Highest index at which [sep] occurs in [s]. *)
Fixpoint rindex (sep s : str) : option nat :=
  match s with
  | [] => if startswith sep [] then Some 0%nat else None
  | _ :: s' =>
    match rindex sep s' with
    | Some i => Some (S i)
    | None => if startswith sep s then Some 0%nat else None
    end
  end.

(** [s.rfind(sep)] *)
Definition rfind (s sep : str) : Z :=
  match rindex sep s with
  | Some i => Z.of_nat i
  | None => -1
  end.

(** [sub in s] *)
Fixpoint contains (sub s : str) : bool :=
  startswith sub s
  || match s with
     | [] => false
     | _ :: s' => contains sub s'
     end.

(** [sep] occurs somewhere in [s]. *)
Definition occurs (sep s : str) : Prop :=
  exists pre post, s = pre ++ sep ++ post.

(** The character at offset [k] exists and is not whitespace. *)
Definition nonspace_at (s : str) (k : nat) : bool :=
  match s !! k with
  | Some c => negb (isspace c)
  | None => false
  end.

(** [str(n)] for an [int]. *)
Definition of_Z (n : Z) : str :=
  map Ascii.N_of_ascii
      (String.list_ascii_of_string
         (DecimalString.NilZero.string_of_int (Z.to_int n))).

End PyStr.

(* ================================================================== *)
(** ** [app/document_processor.py] *)
(* ================================================================== *)

Module DocumentProcessor.
Import PyStr.

(** [self]: the two fields set by [__init__]. *)
Record t := { chunk_size : Z; chunk_overlap : Z }.

(** [DocumentProcessor()] with the default arguments. *)
Definition defaults : t := {| chunk_size := 1000; chunk_overlap := 200 |}.

(** One element of the returned list (a [dict] with four keys). *)
Record Chunk := {
  id : str;
  text : str;
  source : str;
  chunk_index : Z
}.

(** [(".\n", "\n", ". ", "? ", "! ")] *)
Definition separators : list str :=
  [[46; 10]; [10]; [46; 32]; [63; 32]; [33; 32]]%N.

(** The chunk cut from the window [[b, e)] of [txt] with index [i]. *)
Definition window_chunk (txt source : str) (b e i : Z) : Chunk :=
  {| id := source ++ lit "_chunk_" ++ of_Z i;
     text := strip (slice txt b e);
     source := source;
     chunk_index := i |}.

(** None of the separators occurs in [text]. *)
Definition no_boundary_markers (text : str) : bool :=
  forallb (fun sep => negb (contains sep text)) separators.

(** [pos > self.chunk_size * 0.4].  The source compares the integer
    [pos] with the double [chunk_size * 0.4]; for every chunk size of
    magnitude below 2^50 that comparison has the same truth value as
    the exact one on integers, [2 * chunk_size < 5 * pos], which is
    the form used here. *)
Definition past_threshold (self : t) (pos : Z) : bool :=
  2 * chunk_size self <? 5 * pos.

(** The [for sep in (...)] loop over the window [chunk_text]: [Some]
    is the shortened window when the [break] is taken, [None] when
    the loop runs to its end. *)
Fixpoint snap (self : t) (chunk_text : str) (seps : list str)
  : option str :=
  match seps with
  | [] => None
  | sep :: seps' =>
    let pos := rfind chunk_text sep in
    if past_threshold self pos
    then Some (slice_to chunk_text (pos + len sep))
    else snap self chunk_text seps'
  end.

(** The variables of the [while] loop. *)
Record Vars := {
  start : Z;
  chunk_id : Z;
  chunks : list Chunk
}.

(** What one pass through the loop body did: the window it cut (after
    snapping, before trimming), whether the window was shortened, and
    whether a chunk was appended. *)
Record Pass := {
  p_start : Z;
  p_end : Z;
  p_chunk_text : str;
  p_snapped : bool;
  p_appended : bool
}.

Inductive Control := Continue | Break.

(** The body of [while start < len(text)], lines 79-108. *)
Definition body (self : t) (text source : str) (v : Vars)
  : Pass * Vars * Control :=
  let end0 := Z.min (start v + chunk_size self) (len text) in
  let chunk_text0 := slice text (start v) end0 in
  let snapped :=
    if end0 <? len text then snap self chunk_text0 separators else None in
  let chunk_text := default chunk_text0 snapped in
  let end_ :=
    match snapped with
    | Some ct => start v + len ct
    | None => end0
    end in
  let clean := strip chunk_text in
  let appended := negb (bool_decide (clean = [])) in
  let chunks' :=
    if appended
    then chunks v ++
         [{| id := source ++ lit "_chunk_" ++ of_Z (chunk_id v);
             text := clean;
             source := source;
             chunk_index := chunk_id v |}]
    else chunks v in
  let chunk_id' := if appended then chunk_id v + 1 else chunk_id v in
  let start' := end_ - chunk_overlap self in
  ({| p_start := start v; p_end := end_; p_chunk_text := chunk_text;
      p_snapped := bool_decide (is_Some snapped);
      p_appended := appended |},
   {| start := start'; chunk_id := chunk_id'; chunks := chunks' |},
   if len text <=? start' then Break
   else if end_ =? len text then Break
   else Continue).

(** The [while] loop, run for at most [fuel] passes.  [None]: the
    loop is still running when the fuel is used up. *)
Fixpoint while (self : t) (text source : str) (fuel : nat) (v : Vars)
  : option (list Chunk) :=
  if start v <? len text then
    match fuel with
    | O => None
    | S fuel' =>
      match body self text source v with
      | (_, v', Break) => Some (chunks v')
      | (_, v', Continue) => while self text source fuel' v'
      end
    end
  else Some (chunks v).

(** The passes the loop makes, in order (at most [fuel] of them). *)
Fixpoint passes (self : t) (text source : str) (fuel : nat) (v : Vars)
  : list Pass :=
  if start v <? len text then
    match fuel with
    | O => []
    | S fuel' =>
      match body self text source v with
      | (p, v', Break) => [p]
      | (p, v', Continue) => p :: passes self text source fuel' v'
      end
    end
  else [].

Definition init : Vars := {| start := 0; chunk_id := 0; chunks := [] |}.

(** [split_into_chunks(self, text, source)], with the loop bounded by
    [fuel]. *)
Definition split_into_chunks (self : t) (fuel : nat) (text source : str)
  : option (list Chunk) :=
  let text := strip text in
  if bool_decide (text = []) then Some []
  else while self text source fuel init.

(** The passes of that call, and the start offsets (in the stripped
    text) of the passes that appended a chunk. *)
Definition split_passes (self : t) (fuel : nat) (text source : str)
  : list Pass :=
  let text := strip text in
  if bool_decide (text = []) then []
  else passes self text source fuel init.

Definition chunk_starts (self : t) (fuel : nat) (text source : str)
  : list Z :=
  map p_start (filter (fun p => p_appended p = true)
                      (split_passes self fuel text source)).

End DocumentProcessor.

(* ================================================================== *)
(** ** Exceptions, collaborators and the effect monad *)
(* ================================================================== *)

(** Instances of [Exception].  [ServiceError] stands for whatever a
    collaborator (SDK, model, PIL) raises; only its [str(e)] is ever
    inspected by the program. *)
#[warnings="-register-all"]
Inductive exn : Type :=
  | OSError (strerror : str)
  | ValueError (msg : str)
  | TypeError (msg : str)
  | RuntimeError (msg : str) (cause : option exn)
  | ServiceError (msg : str).

(** [str(e)] *)
Definition str_of_exn (e : exn) : str :=
  match e with
  | OSError m | ValueError m | TypeError m | RuntimeError m _
  | ServiceError m => m
  end.

(** A call either returns or raises. *)
Inductive Res (A : Type) : Type :=
  | Ok (a : A)
  | Raise (e : exn).
Arguments Ok {A} a.
Arguments Raise {A} e.

(** Opaque objects handed out by the collaborators. *)
Abbreviation Ref := N.

(** The object returned by [sdk.files.upload]; only [.id] is read. *)
Record File := { file_id : str }.

(** A PIL image; only its size is read. *)
Record Image := { image_ref : Ref; width : Z; height : Z }.

(** Every call the program makes on a collaborator. *)
Inductive Call : Type :=
  | files_upload (file_path name : str)
  | files_get (fid : str)
  | file_delete (file : Ref)
  | search_indexes_create_deferred (file : File)
  | create_wait (op : Ref)
  | add_files_deferred (index : Ref) (file : File)
  | add_wait (op : Ref)
  | search_index_delete (index : Ref)
  | tools_search_index (index : Ref)
  | assistants_create (tools : list Ref)
  | assistant_delete (assistant : Ref)
  | threads_create
  | thread_write (thread : Ref) (query : str)
  | assistant_run (assistant thread : Ref)
  | run_wait (run : Ref)
  | thread_delete (thread : Ref)
  | Image_open (image_path : str)
  | image_resize (img : Image)
  | generate_content (img : Image)
  | response_text (response : Ref).

(** What each call returns when it returns.  [run_wait] gives
    [result.text], which may be [None]. *)
Definition Resp (c : Call) : Type :=
  match c with
  | files_upload _ _ => File
  | files_get _ => Ref
  | file_delete _ => unit
  | search_indexes_create_deferred _ => Ref
  | create_wait _ => Ref
  | add_files_deferred _ _ => Ref
  | add_wait _ => unit
  | search_index_delete _ => unit
  | tools_search_index _ => Ref
  | assistants_create _ => Ref
  | assistant_delete _ => unit
  | threads_create => Ref
  | thread_write _ _ => unit
  | assistant_run _ _ => Ref
  | run_wait _ => option str
  | thread_delete _ => unit
  | Image_open _ => Image
  | image_resize _ => Image
  | generate_content _ => Ref
  | response_text _ => str
  end.

(** The calls that belong to the conversational agent (assistant,
    thread, run, search tool). *)
Definition is_agent_call (c : Call) : bool :=
  match c with
  | tools_search_index _ | assistants_create _ | assistant_delete _
  | threads_create | thread_write _ _ | assistant_run _ _ | run_wait _
  | thread_delete _ => true
  | _ => false
  end.

(** The environment: how the collaborators answer a call, given all
    the calls made before it; the local file system's [os.path.isfile];
    and [Path(p).name]. *)
Record Env := {
  respond : list Call -> forall c : Call, Res (Resp c);
  isfile : str -> bool;
  path_name : str -> str
}.

(** The state a method runs in: the object [self], the calls made so
    far, and the delays [time.sleep] was called with. *)
Record Store (O : Type) := {
  self : O;
  calls : list Call;
  slept : list Z
}.
Arguments self {O} s.
Arguments calls {O} s.
Arguments slept {O} s.

Definition M (O A : Type) : Type := Store O -> Res A * Store O.

Section Effects.
Context {O : Type}.

Definition ret {A} (a : A) : M O A := fun s => (Ok a, s).

Definition bind {A B} (m : M O A) (k : A -> M O B) : M O B :=
  fun s =>
    match m s with
    | (Ok a, s') => k a s'
    | (Raise e, s') => (Raise e, s')
    end.

Definition raise {A} (e : exn) : M O A := fun s => (Raise e, s).

(** [try: m  except Exception as e: h e] *)
Definition try_except {A} (m : M O A) (h : exn -> M O A) : M O A :=
  fun s =>
    match m s with
    | (Ok a, s') => (Ok a, s')
    | (Raise e, s') => h e s'
    end.

Definition get : M O O := fun s => (Ok (self s), s).

Definition modify (f : O -> O) : M O unit :=
  fun s => (Ok tt, {| self := f (self s); calls := calls s;
                      slept := slept s |}).

(** One call on a collaborator. *)
Definition call (env : Env) (c : Call) : M O (Resp c) :=
  fun s => (respond env (calls s) c,
            {| self := self s; calls := calls s ++ [c];
               slept := slept s |}).

(** [time.sleep(delay)]; a negative delay is a [ValueError]. *)
Definition sleep (delay : Z) : M O unit :=
  fun s =>
    if delay <? 0
    then (Raise (ValueError
                   (PyStr.lit "sleep length must be non-negative")), s)
    else (Ok tt, {| self := self s; calls := calls s;
                    slept := slept s ++ [delay] |}).

(** [for x in l: f x] *)
Fixpoint for_each {X} (l : list X) (f : X -> M O unit) : M O unit :=
  match l with
  | [] => ret tt
  | x :: l' => bind (f x) (fun _ => for_each l' f)
  end.

End Effects.

Notation "'let!' x ':=' m 'in' k" := (bind m (fun x => k))
  (at level 10, x name, m at level 100, k at level 200,
   format "'[v' 'let!'  x  :=  m  'in'  '/' k ']'").
Notation "'do!' m 'in' k" := (bind m (fun _ => k))
  (at level 10, m at level 100, k at level 200,
   format "'[v' 'do!'  m  'in'  '/' k ']'").

(** Run a method of an inner object [y] from a method of the object
    holding it; [put_back] stores the (mutated) inner object again. *)
Definition within {O Y A} (y : Y) (put_back : Y -> O -> O) (m : M Y A)
  : M O A :=
  fun s =>
    match m {| self := y; calls := calls s; slept := slept s |} with
    | (r, s') =>
      (r, {| self := put_back (self s') (self s); calls := calls s';
             slept := slept s' |})
    end.

(** The calls made between two states of one run. *)
Definition new_calls {O} (before after : Store O) : list Call :=
  drop (length (calls before)) (calls after).

(** [m] leaves the object alone and makes only calls that satisfy
    [P]. *)
Definition makes_only {O A} (P : Call -> Prop) (m : M O A) : Prop :=
  forall s r s',
    m s = (r, s') ->
    exists l, calls s' = calls s ++ l /\ Forall P l /\ self s' = self s.

(** A Python [dict] from [str] to [str]: insertion-ordered, keys
    unique. *)
Module PyDict.

Definition t := list (str * str).

(** [d.get(k)] *)
Fixpoint get (d : t) (k : str) : option str :=
  match d with
  | [] => None
  | (k', v) :: d' => if bool_decide (k' = k) then Some v else get d' k
  end.

(** [d[k] = v] *)
Fixpoint set (d : t) (k v : str) : t :=
  match d with
  | [] => [(k, v)]
  | (k', v') :: d' =>
    if bool_decide (k' = k) then (k', v) :: d'
    else (k', v') :: set d' k v
  end.

(** The dictionary left by [d.pop(k, None)]. *)
Fixpoint remove (d : t) (k : str) : t :=
  match d with
  | [] => []
  | (k', v') :: d' =>
    if bool_decide (k' = k) then d' else (k', v') :: remove d' k
  end.

(** [list(d.values())] *)
Definition values (d : t) : list str := map snd d.

(** [len(d)] *)
Definition len (d : t) : Z := Z.of_nat (length d).

End PyDict.

(* ================================================================== *)
(** ** [app/document_processor.py]: [_load_txt] *)
(* ================================================================== *)

Module Loader.

Inductive Encoding := utf_8 | cp1251 | latin_1.

(** [encodings = ["utf-8", "cp1251", "latin-1"]] *)
Definition encodings : list Encoding := [utf_8; cp1251; latin_1].

(** Decoding with a codec; [None] is [UnicodeDecodeError]. *)
Definition decode (enc : Encoding) (b : bytes) : option str :=
  match enc with
  | utf_8 => Codec.utf_8_decode b
  | cp1251 => Codec.cp1251_decode b
  | latin_1 => Some (Codec.latin_1_decode b)
  end.

(** Text mode reads with universal newlines: CR LF and a lone CR
    both become LF. *)
Fixpoint universal_newlines (s : str) : str :=
  match s with
  | [] => []
  | c :: s' =>
    if (c =? 13)%N then
      match s' with
      | c' :: s'' =>
        if (c' =? 10)%N then 10%N :: universal_newlines s''
        else 10%N :: universal_newlines s'
      | [] => [10%N]
      end
    else c :: universal_newlines s'
  end.

(** The file system: what the [n]-th [open] and [read] of a path
    gives, the raw bytes or the exception it raises (an [OSError] for
    a missing file, say).  Decoding is not its part: the codecs above
    decide that, and all three are part of every CPython, so no
    [LookupError] arises. *)
Definition FileSystem := nat -> str -> exn + bytes.

(** The [for enc in encodings] loop of [_load_txt] and the [raise]
    after it; [n] counts the files opened so far. *)
Fixpoint load_loop (fs : FileSystem) (path : str) (n : nat)
         (encs : list Encoding) : Res str :=
  match encs with
  | [] =>
    Raise (ValueError
             (PyStr.lit "Не удалось прочитать файл: " ++ path))
  | enc :: encs' =>
    match fs n path with
    | inl e => Raise e
    | inr content =>
      match decode enc content with
      | Some text => Ok (universal_newlines text)
      | None => load_loop fs path (S n) encs'
      end
    end
  end.

(** [DocumentProcessor._load_txt(path)] *)
Definition _load_txt (fs : FileSystem) (path : str) : Res str :=
  load_loop fs path 0 encodings.

End Loader.

(* ================================================================== *)
(** ** [app/rag_engine.py] *)
(* ================================================================== *)

Module rag_engine.
Import PyStr.

Definition nl : str := [10%N].
(** Three double quotes. *)
Definition triple_quote : str := [34; 34; 34]%N.

(** [app/config.py] *)
Definition MAX_RETRIES : Z := 3.
Definition RETRY_BASE_DELAY : Z := 5.

(** ["429" in err_str or "ResourceExhausted" in err_str] *)
Definition is_rate_limit (e : exn) : bool :=
  let err_str := str_of_exn e in
  contains (lit "429") err_str || contains (lit "ResourceExhausted") err_str.

(** [range(n)] *)
Definition range (n : Z) : list Z :=
  map Z.of_nat (seq 0 (Z.to_nat n)).

Section RetryCall.
Context {O A : Type}.

(** The [for attempt in ...] loop of [_retry_call] over the
    attempts still to make, and the [raise last_err] after it
    ([raise None] is a [TypeError]). *)
Fixpoint retry_loop (fn : M O A) (max_retries base_delay : Z)
         (attempts : list Z) (last_err : option exn) : M O A :=
  match attempts with
  | [] =>
    match last_err with
    | Some e => raise e
    | None =>
      raise (TypeError (lit "exceptions must derive from BaseException"))
    end
  | attempt :: attempts' =>
    try_except fn (fun e =>
      if is_rate_limit e && (attempt <? max_retries) then
        let delay := base_delay * 2 ^ attempt in
        do! sleep delay in
        retry_loop fn max_retries base_delay attempts' (Some e)
      else raise e)
  end.

(** [_retry_call(fn, max_retries, base_delay)] *)
Definition _retry_call (fn : M O A) (max_retries base_delay : Z)
  : M O A :=
  retry_loop fn max_retries base_delay (range (max_retries + 1)) None.

End RetryCall.

(** [status_hints], in insertion order. *)
Definition status_hints : list (str * str) :=
  [ (lit "PERMISSION_DENIED",
     lit "Доступ запрещён. Проверьте:" ++ nl ++
     lit "  1) API-ключ корректный (не OAuth-токен)" ++ nl ++
     lit "  2) API-ключ привязан к сервисному аккаунту с ролями:" ++ nl ++
     lit "     - ai.editor (или ai.admin)" ++ nl ++
     lit "     - ai.assistants.editor" ++ nl ++
     lit "  3) Folder ID - правильный" ++ nl ++
     lit "  4) Сервисный аккаунт состоит в этом каталоге");
    (lit "UNAUTHENTICATED",
     lit "Не авторизован. API-ключ недействителен или истёк." ++ nl ++
     lit "Создайте новый ключ на https://console.yandex.cloud/");
    (lit "NOT_FOUND", lit "Ресурс не найден. Проверьте Folder ID.");
    (lit "INVALID_ARGUMENT",
     lit "Неверный аргумент. Файл повреждён или формат не поддерживается.");
    (lit "RESOURCE_EXHAUSTED",
     lit "Лимит исчерпан. Подождите или увеличьте квоту.") ].

(** The [for code, hint in status_hints.items()] loop and the
    fallback [msg[:300]]. *)
Fixpoint hint_loop (msg : str) (hints : list (str * str)) : str :=
  match hints with
  | [] => slice_to msg 300
  | (code, hint) :: hints' =>
    if contains code msg
    then hint ++ nl ++ nl ++ lit "Оригинал: " ++ slice_to msg 200
    else hint_loop msg hints'
  end.

(** [_parse_grpc_error(e)] *)
Definition _parse_grpc_error (e : exn) : str :=
  hint_loop (str_of_exn e) status_hints.

(* ---------------------------------------------------------------- *)
Module YandexRAG.

(** The fields of a [YandexRAG] object ([sdk] is the environment). *)
Record t := {
  _search_index : option Ref;
  _files : PyDict.t;
  _assistant : option Ref;
  _index_dirty : bool
}.

Definition set_search_index (v : option Ref) (o : t) : t :=
  {| _search_index := v; _files := _files o;
     _assistant := _assistant o; _index_dirty := _index_dirty o |}.
Definition set_files (v : PyDict.t) (o : t) : t :=
  {| _search_index := _search_index o; _files := v;
     _assistant := _assistant o; _index_dirty := _index_dirty o |}.
Definition set_assistant (v : option Ref) (o : t) : t :=
  {| _search_index := _search_index o; _files := _files o;
     _assistant := v; _index_dirty := _index_dirty o |}.
Definition set_index_dirty (v : bool) (o : t) : t :=
  {| _search_index := _search_index o; _files := _files o;
     _assistant := _assistant o; _index_dirty := v |}.

Section Methods.
Variable env : Env.

(** [try: m  except Exception: pass] *)
Definition best_effort (m : M t unit) : M t unit :=
  try_except m (fun _ => ret tt).

(** [_ensure_assistant(self)] *)
Definition _ensure_assistant : M t unit :=
  let! o := get in
  if bool_decide (is_Some (_assistant o)) && negb (_index_dirty o)
  then ret tt
  else
    do! match _assistant o with
        | Some a =>
          do! best_effort (call env (assistant_delete a)) in
          modify (set_assistant None)
        | None => ret tt
        end in
    let! tools :=
      match _search_index o with
      | Some si =>
        let! tool := call env (tools_search_index si) in
        ret [tool]
      | None => ret []
      end in
    let! a := call env (assistants_create tools) in
    do! modify (set_assistant (Some a)) in
    modify (set_index_dirty false).

(** The body of the second [try] of [add_file]: create the index
    from the file, or extend the existing one. *)
Definition index_file (yc_file : File) : M t unit :=
  let! o := get in
  match _search_index o with
  | None =>
    let! op := call env (search_indexes_create_deferred yc_file) in
    let! si := call env (create_wait op) in
    modify (set_search_index (Some si))
  | Some si =>
    let! op := call env (add_files_deferred si yc_file) in
    call env (add_wait op)
  end.

(** [add_file(self, file_path)] *)
Definition add_file (file_path : str) : M t str :=
  let name := path_name env file_path in
  let! yc_file :=
    try_except (call env (files_upload file_path name)) (fun e =>
      raise (RuntimeError
               (lit "Ошибка загрузки файла '" ++ name ++ lit "':"
                ++ nl ++ _parse_grpc_error e) (Some e))) in
  do! modify (fun o =>
        set_files (PyDict.set (_files o) name (file_id yc_file)) o) in
  do! try_except (index_file yc_file) (fun e =>
        raise (RuntimeError
                 (lit "Файл '" ++ name
                  ++ lit "' загружен, но ошибка индексации:"
                  ++ nl ++ _parse_grpc_error e) (Some e))) in
  do! modify (set_index_dirty true) in
  ret name.

(** [self.sdk.files.get(fid).delete()] inside
    [try ... except Exception: pass] *)
Definition delete_remote_file (fid : str) : M t unit :=
  best_effort (let! file := call env (files_get fid) in
               call env (file_delete file)).

(** [remove_file(self, source_name)] *)
Definition remove_file (source_name : str) : M t unit :=
  let! o := get in
  let fid := PyDict.get (_files o) source_name in
  do! modify (set_files (PyDict.remove (_files o) source_name)) in
  match fid with
  | Some fid =>
    if bool_decide (fid = []) then ret tt
    else delete_remote_file fid
  | None => ret tt
  end.

(** [clear_all(self)] *)
Definition clear_all : M t unit :=
  let! o := get in
  do! match _assistant o with
      | Some a =>
        do! best_effort (call env (assistant_delete a)) in
        modify (set_assistant None)
      | None => ret tt
      end in
  do! match _search_index o with
      | Some si =>
        do! best_effort (call env (search_index_delete si)) in
        modify (set_search_index None)
      | None => ret tt
      end in
  do! for_each (PyDict.values (_files o)) delete_remote_file in
  do! modify (set_files []) in
  modify (set_index_dirty true).

(** [document_count(self)] *)
Definition document_count (o : t) : Z := PyDict.len (_files o).

(** [analyze(self, query)] *)
Definition analyze (query : str) : M t str :=
  do! _ensure_assistant in
  let! o := get in
  match _assistant o with
  | None => ret (lit "(Ошибка: не удалось создать ассистента YandexGPT)")
  | Some a =>
    try_except
      (let! thread := call env threads_create in
       do! call env (thread_write thread query) in
       let! run := call env (assistant_run a thread) in
       let! result_text := call env (run_wait run) in
       let text :=
         match result_text with
         | Some tx => if bool_decide (tx = []) then [] else tx
         | None => []
         end in
       do! try_except (call env (thread_delete thread))
             (fun _ => ret tt) in
       if bool_decide (strip text = [])
       then ret (lit "(YandexGPT вернул пустой ответ.)")
       else ret text)
      (fun e =>
         ret (lit "Ошибка анализа через YandexGPT:" ++ nl
              ++ _parse_grpc_error e))
  end.

End Methods.
End YandexRAG.

(* ---------------------------------------------------------------- *)
Module RAGEngine.

(** The fields of a [RAGEngine] object; [yandex] is [None] when no
    Yandex credentials are configured. *)
Record t := {
  model_name : str;
  yandex : option YandexRAG.t
}.

Definition set_yandex (y : YandexRAG.t) (o : t) : t :=
  {| model_name := model_name o; yandex := Some y |}.

Definition NOT_CONFIGURED : str :=
  lit "Yandex Cloud не настроен. Анализ невозможен.".

Definition NOTHING_SUBMITTED : str :=
  lit "Не предоставлен материал для проверки. Введите текст или прикрепите изображение.".

Section Methods.
Variable env : Env.

(** [document_count(self)] *)
Definition document_count (o : t) : Z :=
  match yandex o with
  | Some y => YandexRAG.document_count y
  | None => 0
  end.

(** [describe_image(self, image_path)].  The size passed to
    [resize] is computed in floating point and is not part of the
    recorded call. *)
Definition describe_image (image_path : str) : M t str :=
  let! img := call env (Image_open image_path) in
  let max_dim := 2048 in
  let! img :=
    if max_dim <? Z.max (width img) (height img)
    then call env (image_resize img)
    else ret img in
  let! response :=
    _retry_call (call env (generate_content img))
                MAX_RETRIES RETRY_BASE_DELAY in
  call env (response_text response).

(** The f-string [[Документов в базе знаний: N]]. *)
Definition count_line (o : t) : str :=
  lit "[Документов в базе знаний: " ++ of_Z (document_count o)
  ++ lit "]".

(** ["\n".join(parts)] *)
Fixpoint join_lines (parts : list str) : str :=
  match parts with
  | [] => []
  | [p] => p
  | p :: parts' => p ++ nl ++ join_lines parts'
  end.

(** [analyze_text(self, text)] *)
Definition analyze_text (text : str) : M t str :=
  let! o := get in
  match yandex o with
  | None => ret NOT_CONFIGURED
  | Some y =>
    let query :=
      lit "Проверь следующий рекламный материал на соответствие "
      ++ lit "российскому законодательству о рекламе:" ++ nl ++ nl
      ++ triple_quote ++ nl ++ text ++ nl ++ triple_quote ++ nl ++ nl
      ++ count_line o in
    within y set_yandex (YandexRAG.analyze env query)
  end.

(** [analyze_image(self, image_path, text)] *)
Definition analyze_image (image_path text : str) : M t str :=
  let! o := get in
  match yandex o with
  | None => ret NOT_CONFIGURED
  | Some y =>
    let! described :=
      try_except
        (let! description := describe_image image_path in
         ret (inr description))
        (fun e =>
           ret (inl (lit "Ошибка описания изображения (Gemini):" ++ nl
                     ++ slice_to (str_of_exn e) 200))) in
    match described with
    | inl message => ret message
    | inr description =>
      let query_parts :=
        [ lit "Проверь следующий рекламный материал на соответствие "
          ++ lit "российскому законодательству о рекламе.";
          [];
          lit "ОПИСАНИЕ ВИЗУАЛЬНОГО СОДЕРЖАНИЯ:";
          triple_quote; description; triple_quote ] in
      let query_parts :=
        if bool_decide (strip text = []) then query_parts
        else query_parts
             ++ [ []; lit "ТЕКСТ РЕКЛАМЫ:"; triple_quote; text;
                  triple_quote ] in
      let query_parts := query_parts ++ [nl ++ count_line o] in
      within y set_yandex
             (YandexRAG.analyze env (join_lines query_parts))
    end
  end.

(** [image_path and os.path.isfile(image_path)], for an
    [Optional[str]]. *)
Definition image_given (image_path : option str) : bool :=
  match image_path with
  | Some p => negb (bool_decide (p = [])) && isfile env p
  | None => false
  end.

(** [analyze(self, text, image_path)] *)
Definition analyze (text : str) (image_path : option str) : M t str :=
  if image_given image_path
  then analyze_image (default [] image_path) text
  else if negb (bool_decide (strip text = []))
  then analyze_text text
  else ret NOTHING_SUBMITTED.

End Methods.
End RAGEngine.

End rag_engine.

(* ================================================================== *)
(** ** Concrete inputs and test doubles *)
(* ================================================================== *)

Module Examples.
Import PyStr.

(** 2500 times the letter [a]. *)
Definition letters_2500 : str := repeat 97%N 2500.

(** A processor whose overlap is below its chunk size, and a text
    with one newline at offset 5. *)
Definition narrow : DocumentProcessor.t :=
  {| DocumentProcessor.chunk_size := 10;
     DocumentProcessor.chunk_overlap := 6 |}.
Definition one_newline : str := repeat 97%N 5 ++ [10%N] ++ repeat 97%N 14.

(** 500 letters, a full stop and a space, 1000 more letters. *)
Definition one_sentence_end : str :=
  repeat 97%N 500 ++ [46; 32]%N ++ repeat 97%N 1000.

(** The word "Привет" in UTF-8 and in cp1251, and the byte 0x98,
    which neither UTF-8 nor cp1251 decodes. *)
Definition privet_utf8 : bytes :=
  String.list_byte_of_string "Привет".
Definition privet_cp1251 : bytes :=
  [Byte.xcf; Byte.xf0; Byte.xe8; Byte.xe2; Byte.xe5; Byte.xf2].
Definition stray_byte : bytes := [Byte.x41; Byte.x98; Byte.x0d; Byte.x0a].

(** A disk on which every file has the given bytes, and one on which
    nothing can be opened. *)
Definition disk_with (content : bytes) : Loader.FileSystem :=
  fun _ _ => inr content.
Definition empty_disk : Loader.FileSystem :=
  fun _ _ => inl (OSError (lit "[Errno 2] No such file or directory")).

(** *** Test doubles for the collaborators *)

(** What a call returns when it does not raise. *)
Definition default_resp (c : Call) : Resp c :=
  match c with
  | files_upload _ _ => {| file_id := lit "file-1" |}
  | files_get _ => 11%N
  | file_delete _ => tt
  | search_indexes_create_deferred _ => 21%N
  | create_wait _ => 22%N
  | add_files_deferred _ _ => 23%N
  | add_wait _ => tt
  | search_index_delete _ => tt
  | tools_search_index _ => 31%N
  | assistants_create _ => 32%N
  | assistant_delete _ => tt
  | threads_create => 41%N
  | thread_write _ _ => tt
  | assistant_run _ _ => 42%N
  | run_wait _ => Some (lit "УРОВЕНЬ РИСКА: 5%")
  | thread_delete _ => tt
  | Image_open _ => {| image_ref := 51%N; width := 640; height := 480 |}
  | image_resize img => img
  | generate_content _ => 52%N
  | response_text _ => lit "На изображении бутылка и надпись."
  end.

(** The last component of a [/]-separated path. *)
Fixpoint basename_from (acc p : str) : str :=
  match p with
  | [] => acc
  | c :: p' =>
    if (c =? 47)%N then basename_from [] p'
    else basename_from (acc ++ [c]) p'
  end.

(** Collaborators in which [fails history c] says whether the call
    [c], made after the calls of [history], raises; the only file on
    disk is [ad.png]. *)
Definition mock (fails : list Call -> Call -> option exn) : Env :=
  {| respond := fun h c =>
       match fails h c with
       | Some e => Raise e
       | None => Ok (default_resp c)
       end;
     isfile := fun p => bool_decide (p = lit "ad.png");
     path_name := basename_from [] |}.

Definition all_fine : Env := mock (fun _ _ => None).

(** [assistants.create] is unavailable. *)
Definition assistant_unavailable : Env :=
  mock (fun _ c =>
          match c with
          | assistants_create _ =>
            Some (ServiceError (lit "UNAVAILABLE: connection reset"))
          | _ => None
          end).

(** Creating the search index is refused. *)
Definition indexing_refused : Env :=
  mock (fun _ c =>
          match c with
          | search_indexes_create_deferred _ =>
            Some (ServiceError (lit "INVALID_ARGUMENT: unsupported file"))
          | _ => None
          end).

(** The vision model fails with an error that is not a rate limit. *)
Definition vision_down : Env :=
  mock (fun _ c =>
          match c with
          | generate_content _ =>
            Some (ServiceError (lit "500 Internal error"))
          | _ => None
          end).

Definition is_generate (c : Call) : bool :=
  match c with generate_content _ => true | _ => false end.

(** The vision model answers 429 twice, then succeeds. *)
Definition rate_limited_twice : Env :=
  mock (fun h c =>
          match c with
          | generate_content _ =>
            if (length (List.filter is_generate h) <? 2)%nat
            then Some (ServiceError (lit "429 Too Many Requests"))
            else None
          | _ => None
          end).

(** A [YandexRAG] right after [__init__] found no index, and one in
    steady state: index and assistant exist, nothing changed since
    the assistant was built. *)
Definition fresh_yandex : rag_engine.YandexRAG.t :=
  {| rag_engine.YandexRAG._search_index := None;
     rag_engine.YandexRAG._files := [];
     rag_engine.YandexRAG._assistant := None;
     rag_engine.YandexRAG._index_dirty := true |}.

Definition settled_yandex : rag_engine.YandexRAG.t :=
  {| rag_engine.YandexRAG._search_index := Some 22%N;
     rag_engine.YandexRAG._files := [(lit "law.txt", lit "file-1")];
     rag_engine.YandexRAG._assistant := Some 32%N;
     rag_engine.YandexRAG._index_dirty := false |}.

Definition engine (y : option rag_engine.YandexRAG.t)
  : rag_engine.RAGEngine.t :=
  {| rag_engine.RAGEngine.model_name := lit "gemini-2.0-flash";
     rag_engine.RAGEngine.yandex := y |}.

(** A store in which nothing has been called yet. *)
Definition at_start {O} (o : O) : Store O :=
  {| self := o; calls := []; slept := [] |}.

Definition sample_image : Image :=
  {| image_ref := 51%N; width := 640; height := 480 |}.

End Examples.

(* ================================================================== *)
(** ** Vocabulary for further properties of the chunker *)
(* ================================================================== *)

Module ChunkerVocabulary.
Import PyStr DocumentProcessor.

(** The chunks built from the trimmed texts [texts], numbered from
    [i] on, for the source label [source]. *)
Fixpoint numbered (source : str) (i : Z) (texts : list str) : list Chunk :=
  match texts with
  | [] => []
  | t :: texts' =>
    {| id := source ++ lit "_chunk_" ++ of_Z i;
       text := t;
       source := source;
       chunk_index := i |} :: numbered source (i + 1) texts'
  end.

(** The trimmed windows of the passes that appended a chunk. *)
Definition appended_texts (ps : list Pass) : list str :=
  map (fun p => strip (p_chunk_text p))
      (filter (fun p => p_appended p = true) ps).

(** The windows of [ps] tile [txt] from offset [s] on: each window is
    the non-empty part [[p_start, p_end)] of [txt], the first starts at
    [s], each next one starts [overlap] before the end of the one
    before it, and the last ends where [txt] ends. *)
Fixpoint tiles (txt : str) (overlap s : Z) (ps : list Pass) : Prop :=
  match ps with
  | [] => False
  | p :: ps' =>
    p_start p = s
    /\ 0 <= s < p_end p
    /\ p_end p <= len txt
    /\ p_chunk_text p = slice txt (p_start p) (p_end p)
    /\ match ps' with
       | [] => p_end p = len txt
       | _ :: _ => tiles txt overlap (p_end p - overlap) ps'
       end
  end.

(** The three chunks of [Examples.one_sentence_end] under the default
    sizes: 500 letters and the full stop; the 1000 characters from
    offset 302; the last 400 letters. *)
Definition sentence_chunks : list Chunk :=
  [ {| id := lit "_chunk_0"; text := repeat 97%N 500 ++ [46%N];
       source := []; chunk_index := 0 |};
    {| id := lit "_chunk_1";
       text := repeat 97%N 198 ++ [46; 32]%N ++ repeat 97%N 800;
       source := []; chunk_index := 1 |};
    {| id := lit "_chunk_2"; text := repeat 97%N 400;
       source := []; chunk_index := 2 |} ].

End ChunkerVocabulary.

(* ================================================================== *)
(** ** [app/rag_engine.py]: document management of [RAGEngine] *)
(* ================================================================== *)

Module RAGEngineDocs.
Import PyStr rag_engine rag_engine.RAGEngine.

Section Methods.
Variable env : Env.

(** [add_file(self, file_path)] *)
Definition add_file (file_path : str) : M RAGEngine.t str :=
  let! o := get in
  match yandex o with
  | None =>
    raise (RuntimeError
             (lit "Yandex Cloud не настроен. Укажите Folder ID и API Key.")
             None)
  | Some y => within y set_yandex (YandexRAG.add_file env file_path)
  end.

(** [remove_document(self, source_name)] *)
Definition remove_document (source_name : str) : M RAGEngine.t unit :=
  let! o := get in
  match yandex o with
  | Some y => within y set_yandex (YandexRAG.remove_file env source_name)
  | None => ret tt
  end.

(** [clear_all(self)] *)
Definition clear_all : M RAGEngine.t unit :=
  let! o := get in
  match yandex o with
  | Some y => within y set_yandex (YandexRAG.clear_all env)
  | None => ret tt
  end.

End Methods.

(** The call that creates a search index. *)
Definition is_index_creation (c : Call) : bool :=
  match c with
  | search_indexes_create_deferred _ => true
  | _ => false
  end.

End RAGEngineDocs.

(* ================================================================== *)
(** ** [app/rag_engine.py]: construction of a [YandexRAG] *)
(* ================================================================== *)

Module YandexRAGInit.
Import PyStr rag_engine rag_engine.YandexRAG.

(** What iterating over a remote listing gives: the items it yields
    and, when [broken] is an exception, the exception it raises after
    them instead of ending. *)
Record Listing (X : Type) := {
  items : list X;
  broken : option exn
}.
Arguments items {X} l.
Arguments broken {X} l.

(** A search index as [search_indexes.list()] yields it: the object,
    its [labels] ([None] or a dictionary) and what [list_files()]
    yields (the ids of its files). *)
Record RemoteIndex := {
  index_ref : Ref;
  labels : option PyDict.t;
  index_files : Listing str
}.

(** The remote state [__init__] reads: the index listing, and for a
    file id what [files.get(fid)] gives, an exception or the file's
    [name] attribute ([None] when it has none). *)
Record Remote := {
  search_indexes : Listing RemoteIndex;
  file_name : str -> Res (option str)
}.

(** [si.labels and si.labels.get("app") == "ad_censor"] *)
Definition is_ours (si : RemoteIndex) : bool :=
  match labels si with
  | Some d =>
    negb (bool_decide (d = []))
    && bool_decide (PyDict.get d (lit "app") = Some (lit "ad_censor"))
  | None => false
  end.

(** The name restored for a file id: the [try] around
    [files.get(fid)], with [fname = fid] as the fallback. *)
Definition restored_name (remote : Remote) (fid : str) : str :=
  match file_name remote fid with
  | Ok (Some name) => if bool_decide (name = []) then fid else name
  | Ok None => fid
  | Raise _ => fid
  end.

(** The [for idx_file in si.list_files()] loop over the ids it
    yields. *)
Fixpoint restore_files (remote : Remote) (fids : list str) (o : t) : t :=
  match fids with
  | [] => o
  | fid :: fids' =>
    restore_files remote fids'
      (set_files (PyDict.set (_files o) (restored_name remote fid) fid) o)
  end.

(** The [for si in self.sdk.search_indexes.list()] loop over the
    indexes yielded, [rest] being how the listing ends; the result
    says whether an exception came out. *)
Fixpoint adopt_first (remote : Remote) (indexes : list RemoteIndex)
         (rest : option exn) (o : t) : Res unit * t :=
  match indexes with
  | [] =>
    match rest with
    | Some e => (Raise e, o)
    | None => (Ok tt, o)
    end
  | si :: indexes' =>
    if is_ours si then
      let o1 := set_search_index (Some (index_ref si)) o in
      let o2 := restore_files remote (items (index_files si)) o1 in
      match broken (index_files si) with
      | Some e => (Raise e, o2)
      | None => (Ok tt, set_index_dirty true o2)
      end
    else adopt_first remote indexes' rest o
  end.

(** [_load_existing_index(self)]: the loop inside
    [try ... except Exception: pass]. *)
Definition _load_existing_index (remote : Remote) (o : t) : t :=
  (adopt_first remote (items (search_indexes remote))
               (broken (search_indexes remote)) o).2.

(** [__init__(self, folder_id, api_key)], once the SDK object is
    made: the four field assignments, then [_load_existing_index]. *)
Definition __init__ (remote : Remote) : t :=
  _load_existing_index remote
    {| _search_index := None; _files := []; _assistant := None;
       _index_dirty := true |}.

End YandexRAGInit.

(* ================================================================== *)
(** ** [app/document_processor.py]: loading a document *)
(* ================================================================== *)

Module DocumentLoading.
Import PyStr.

(** What the loaders read: [Path(p).suffix.lower()] and
    [Path(p).name]; the pages [PdfReader(p)] gives, each with what
    [extract_text()] returns ([None] or a string); the paragraph texts
    [Document(p)] gives; and the file system for plain text.  Opening
    or parsing may raise. *)
Record Disk := {
  suffix_lower : str -> str;
  name_of : str -> str;
  pdf_pages : str -> Res (list (option str));
  docx_paragraphs : str -> Res (list str);
  fs : Loader.FileSystem
}.

(** The page texts [_load_pdf] keeps: those that are not [None] and
    not empty. *)
Fixpoint kept_pages (pages : list (option str)) : list str :=
  match pages with
  | [] => []
  | Some t :: pages' =>
    if bool_decide (t = []) then kept_pages pages'
    else t :: kept_pages pages'
  | None :: pages' => kept_pages pages'
  end.

(** [_load_pdf(path)] *)
Definition _load_pdf (disk : Disk) (path : str) : Res str :=
  match pdf_pages disk path with
  | Ok pages => Ok (rag_engine.RAGEngine.join_lines (kept_pages pages))
  | Raise e => Raise e
  end.

(** The paragraphs [_load_docx] keeps: [if p.text.strip()]. *)
Fixpoint kept_paragraphs (paragraphs : list str) : list str :=
  match paragraphs with
  | [] => []
  | t :: paragraphs' =>
    if bool_decide (strip t = []) then kept_paragraphs paragraphs'
    else t :: kept_paragraphs paragraphs'
  end.

(** [_load_docx(path)] *)
Definition _load_docx (disk : Disk) (path : str) : Res str :=
  match docx_paragraphs disk path with
  | Ok paragraphs => Ok (rag_engine.RAGEngine.join_lines (kept_paragraphs paragraphs))
  | Raise e => Raise e
  end.

(** [load_document(self, file_path)]: the lookup in [loaders] and the
    [ValueError] for any other suffix. *)
Definition load_document (disk : Disk) (file_path : str) : Res str :=
  let ext := suffix_lower disk file_path in
  if bool_decide (ext = lit ".pdf") then _load_pdf disk file_path
  else if bool_decide (ext = lit ".docx") then _load_docx disk file_path
  else if bool_decide (ext = lit ".txt")
  then Loader._load_txt (fs disk) file_path
  else Raise (ValueError (lit "Неподдерживаемый формат файла: " ++ ext)).

(** [process_document(self, file_path)], the chunking loop bounded by
    [fuel]; [None] when the loop is still running. *)
Definition process_document (self : DocumentProcessor.t) (disk : Disk)
           (fuel : nat) (file_path : str)
  : option (Res (list DocumentProcessor.Chunk)) :=
  match load_document disk file_path with
  | Raise e => Some (Raise e)
  | Ok text =>
    match DocumentProcessor.split_into_chunks
            self fuel text (name_of disk file_path) with
    | Some chunks => Some (Ok chunks)
    | None => None
    end
  end.

End DocumentLoading.

(* ================================================================== *)
(** ** More test doubles *)
(* ================================================================== *)

Module MoreExamples.
Import PyStr Examples.

(** The vision model answers 429 every time. *)
Definition always_rate_limited : Env :=
  mock (fun _ c =>
          match c with
          | generate_content _ =>
            Some (ServiceError (lit "429 Too Many Requests"))
          | _ => None
          end).

(** Uploads are refused. *)
Definition upload_refused : Env :=
  mock (fun _ c =>
          match c with
          | files_upload _ _ =>
            Some (ServiceError (lit "PERMISSION_DENIED: no role"))
          | _ => None
          end).

(** Every deletion fails. *)
Definition deletions_fail : Env :=
  mock (fun _ c =>
          match c with
          | file_delete _ | assistant_delete _ | search_index_delete _
          | thread_delete _ =>
            Some (ServiceError (lit "UNAVAILABLE"))
          | _ => None
          end).

(** The assistant run fails. *)
Definition run_fails : Env :=
  mock (fun _ c =>
          match c with
          | assistant_run _ _ =>
            Some (ServiceError (lit "RESOURCE_EXHAUSTED: quota"))
          | _ => None
          end).

(** A steady-state manager whose flag was set again (a file was added
    after the assistant was built). *)
Definition stale_yandex : rag_engine.YandexRAG.t :=
  rag_engine.YandexRAG.set_index_dirty true settled_yandex.

(** An index of another application, and one of ours that holds two
    files. *)
Definition foreign_index : YandexRAGInit.RemoteIndex :=
  {| YandexRAGInit.index_ref := 7%N;
     YandexRAGInit.labels := Some [(lit "app", lit "other")];
     YandexRAGInit.index_files :=
       {| YandexRAGInit.items := [lit "f0"];
          YandexRAGInit.broken := None |} |}.

Definition our_index : YandexRAGInit.RemoteIndex :=
  {| YandexRAGInit.index_ref := 22%N;
     YandexRAGInit.labels := Some [(lit "app", lit "ad_censor")];
     YandexRAGInit.index_files :=
       {| YandexRAGInit.items := [lit "f1"; lit "f2"];
          YandexRAGInit.broken := None |} |}.

(** A remote that lists both; the name of the first file can be
    looked up, the lookup of the second fails. *)
Definition two_indexes : YandexRAGInit.Remote :=
  {| YandexRAGInit.search_indexes :=
       {| YandexRAGInit.items := [foreign_index; our_index];
          YandexRAGInit.broken := None |};
     YandexRAGInit.file_name := fun fid =>
       if bool_decide (fid = lit "f1") then Ok (Some (lit "law.txt"))
       else Raise (ServiceError (lit "NOT_FOUND")) |}.

(** A disk with a scanned two-page PDF (no text on either page). *)
Definition scanned_pdf : DocumentLoading.Disk :=
  {| DocumentLoading.suffix_lower := fun _ => lit ".pdf";
     DocumentLoading.name_of := basename_from [];
     DocumentLoading.pdf_pages := fun _ => Ok [None; Some []];
     DocumentLoading.docx_paragraphs := fun _ => Ok [];
     DocumentLoading.fs := empty_disk |}.

(** A disk on which every path has the suffix [.odt]. *)
Definition odt_disk : DocumentLoading.Disk :=
  {| DocumentLoading.suffix_lower := fun _ => lit ".odt";
     DocumentLoading.name_of := basename_from [];
     DocumentLoading.pdf_pages := fun _ => Ok [];
     DocumentLoading.docx_paragraphs := fun _ => Ok [];
     DocumentLoading.fs := empty_disk |}.

End MoreExamples.

(* ================================================================== *)
(** * Properties *)
(* ================================================================== *)

(** ** Facts about the [str] operations *)

Module PyStrFacts.
Import PyStr.

Lemma startswith_true p s :
  startswith p s = true <-> exists t, s = p ++ t.
Proof.
  revert s. induction p as [|a p IH]; intros s; simpl.
  - split; [intros _; by exists s | done].
  - destruct s as [|b s]; simpl.
    + split; [done | intros [t Ht]; discriminate].
    + rewrite andb_true_iff, N.eqb_eq, IH. split.
      * intros [-> [t ->]]. by exists t.
      * intros [t Ht]. injection Ht as -> ->. eauto.
Qed.

Lemma occurs_cons sep c s : occurs sep s -> occurs sep (c :: s).
Proof. intros (pre & post & ->). by exists (c :: pre), post. Qed.

Lemma occurs_inv sep c s :
  occurs sep (c :: s) -> startswith sep (c :: s) = true \/ occurs sep s.
Proof.
  intros (pre & post & H). destruct pre as [|d pre]; simpl in H.
  - left. apply startswith_true. by exists post.
  - right. injection H as _ ->. by exists pre, post.
Qed.

Lemma occurs_middle sep a w b : occurs sep w -> occurs sep (a ++ w ++ b).
Proof.
  intros (pre & post & ->). exists (a ++ pre), (post ++ b).
  by rewrite <- !app_assoc.
Qed.

Lemma contains_true sep s : contains sep s = true <-> occurs sep s.
Proof.
  induction s as [|c s IH]; simpl.
  - rewrite orb_false_r, startswith_true. split.
    + intros [t Ht]. by exists [], t.
    + intros (pre & post & H). symmetry in H.
      apply app_eq_nil in H as [-> H]. apply app_eq_nil in H as [-> ->].
      by exists [].
  - rewrite orb_true_iff, IH. split.
    + intros [H|H]; [|by apply occurs_cons].
      apply startswith_true in H as [t Ht]. exists [], t. by rewrite Ht.
    + apply occurs_inv.
Qed.

Lemma rindex_Some_occurs sep s i : rindex sep s = Some i -> occurs sep s.
Proof.
  revert i. induction s as [|c s IH]; intros i; simpl.
  - destruct sep; [|done]. intros _. by exists [], [].
  - destruct (rindex sep s) as [j|].
    + intros _. apply occurs_cons. eauto.
    + destruct (startswith sep (c :: s)) eqn:E; [|done]. intros _.
      apply startswith_true in E as [t Ht]. exists [], t. by rewrite Ht.
Qed.

(** An index returned by [rindex] leaves room for the separator. *)
Lemma rindex_Some_bound sep s i :
  rindex sep s = Some i -> (i + length sep <= length s)%nat.
Proof.
  revert i. induction s as [|c s IH]; intros i; simpl.
  - destruct sep; [|done]. intros [= <-]. simpl. lia.
  - destruct (rindex sep s) as [j|].
    + intros [= <-]. specialize (IH j eq_refl). lia.
    + destruct (startswith sep (c :: s)) eqn:E; [|done]. intros [= <-].
      apply startswith_true in E as [t Ht].
      apply (f_equal length) in Ht. rewrite length_app in Ht.
      simpl in *. lia.
Qed.

Lemma rfind_absent s sep : contains sep s = false -> rfind s sep = -1.
Proof.
  intros H. unfold rfind. destruct (rindex sep s) as [i|] eqn:E; [|done].
  apply rindex_Some_occurs, contains_true in E. congruence.
Qed.

Lemma len_nonneg s : 0 <= len s.
Proof. unfold len. lia. Qed.

Lemma clamp_range n i : 0 <= n -> 0 <= clamp n i <= n.
Proof. unfold clamp. intros. destruct (i <? 0) eqn:E; lia. Qed.

(** A slice is a contiguous part of the string. *)
Lemma slice_part s i j : exists a b, s = a ++ slice s i j ++ b.
Proof.
  unfold slice.
  exists (take (Z.to_nat (clamp (len s) i)) s),
         (drop (Z.to_nat (clamp (len s) j - clamp (len s) i))
               (drop (Z.to_nat (clamp (len s) i)) s)).
  by rewrite !take_drop.
Qed.

Lemma contains_slice sep s i j :
  contains sep s = false -> contains sep (slice s i j) = false.
Proof.
  intros H. destruct (contains sep (slice s i j)) eqn:E; [|done].
  apply contains_true in E. destruct (slice_part s i j) as (a & b & Hs).
  rewrite <- H. symmetry. apply contains_true. rewrite Hs.
  by apply occurs_middle.
Qed.

Lemma len_slice s i j :
  0 <= i <= j -> j <= len s -> len (slice s i j) = j - i.
Proof.
  intros Hi Hj. unfold slice, clamp, len in *.
  destruct (i <? 0) eqn:Ei; [lia|]. destruct (j <? 0) eqn:Ej; [lia|].
  rewrite length_take, length_drop. lia.
Qed.

Lemma len_slice_to_ge s j : 0 <= j -> Z.min j (len s) <= len (slice_to s j).
Proof.
  intros Hj. unfold slice_to, slice, clamp, len in *. simpl.
  destruct (j <? 0) eqn:Ej; [lia|].
  rewrite length_take, length_drop. simpl. lia.
Qed.

(** Characters of a slice, by their offset in the whole string. *)
Lemma slice_lookup s i j (k : nat) :
  0 <= i -> i <= Z.of_nat k < j -> j <= len s ->
  slice s i j !! (k - Z.to_nat i)%nat = s !! k.
Proof.
  intros Hi Hk Hj. unfold slice, clamp, len in *.
  destruct (i <? 0) eqn:Ei; [lia|]. destruct (j <? 0) eqn:Ej; [lia|].
  rewrite lookup_take_lt by lia. rewrite lookup_drop. f_equal. lia.
Qed.

Lemma lstrip_nil s : lstrip s = [] <-> forallb isspace s = true.
Proof.
  induction s as [|c s IH]; simpl; [done|].
  destruct (isspace c); simpl; [done|]. split; discriminate.
Qed.

Lemma lstrip_head s c t : lstrip s = c :: t -> isspace c = false.
Proof.
  induction s as [|d s IH]; simpl; [done|].
  destruct (isspace d) eqn:Ed; [done|]. by intros [= <- _].
Qed.

Lemma strip_nil s : strip s = [] <-> forallb isspace s = true.
Proof.
  unfold strip, rstrip. split.
  - intros H. apply (f_equal (@rev N)) in H. rewrite rev_involutive in H.
    simpl in H. apply lstrip_nil in H.
    destruct (lstrip s) as [|c t] eqn:E; [by apply lstrip_nil|].
    apply lstrip_head in E. rewrite forallb_forall in H.
    assert (isspace c = true); [|congruence].
    apply H. apply in_rev. rewrite rev_involutive. by left.
  - intros H. apply lstrip_nil in H. by rewrite H.
Qed.

(** A string with a character that is not whitespace does not strip
    to the empty string. *)
Lemma strip_nonempty s (k : nat) c :
  s !! k = Some c -> isspace c = false -> strip s <> [].
Proof.
  intros Hk Hc H. apply strip_nil in H. rewrite forallb_forall in H.
  assert (isspace c = true); [|congruence].
  apply H. apply list_elem_of_In. by eapply list_elem_of_lookup_2.
Qed.

Lemma lstrip_id c s : isspace c = false -> lstrip (c :: s) = c :: s.
Proof. intros H. simpl. by rewrite H. Qed.

Lemma rstrip_id s c : isspace c = false -> rstrip (s ++ [c]) = s ++ [c].
Proof.
  intros H. unfold rstrip. rewrite rev_app_distr. simpl. rewrite H.
  simpl. by rewrite rev_involutive.
Qed.

End PyStrFacts.

(** ** The chunker *)

Module ChunkerProps.
Import PyStr PyStrFacts DocumentProcessor.

Lemma passes_S self text source fuel v :
  passes self text source (S fuel) v =
  if start v <? len text then
    match body self text source v with
    | (p, v', Break) => [p]
    | (p, v', Continue) => p :: passes self text source fuel v'
    end
  else [].
Proof. reflexivity. Qed.

Lemma while_S self text source fuel v :
  while self text source (S fuel) v =
  if start v <? len text then
    match body self text source v with
    | (_, v', Break) => Some (chunks v')
    | (_, v', Continue) => while self text source fuel v'
    end
  else Some (chunks v).
Proof. reflexivity. Qed.

Lemma snap_absent self w seps :
  -2 <= chunk_size self ->
  (forall sep, In sep seps -> contains sep w = false) ->
  snap self w seps = None.
Proof.
  intros Hcs. induction seps as [|sep seps IH]; intros H; simpl; [done|].
  rewrite rfind_absent by (apply H; by left).
  unfold past_threshold.
  destruct (2 * chunk_size self <? 5 * -1) eqn:E; [lia|].
  apply IH. intros sep' Hin. apply H. by right.
Qed.

(** Whenever the separator loop breaks, the shortened window is
    longer than two fifths of [chunk_size]. *)
Lemma snap_longer self w seps w' :
  snap self w seps = Some w' -> 2 * chunk_size self < 5 * len w'.
Proof.
  induction seps as [|sep seps IH]; simpl; [done|].
  unfold past_threshold.
  destruct (2 * chunk_size self <? 5 * rfind w sep) eqn:E; [|done].
  intros [= <-]. apply Z.ltb_lt in E. unfold rfind in *.
  destruct (rindex sep w) as [i|] eqn:Ei.
  - apply rindex_Some_bound in Ei.
    pose proof (len_slice_to_ge w (Z.of_nat i + len sep)) as Hge.
    unfold len in *. lia.
  - pose proof (len_nonneg (slice_to w (-1 + len sep))). lia.
Qed.

Lemma body_snapped_longer self text source v :
  p_snapped (body self text source v).1.1 = true ->
  2 * chunk_size self < 5 * len (p_chunk_text (body self text source v).1.1).
Proof.
  unfold body. cbn [fst snd p_snapped p_chunk_text].
  destruct (Z.min (start v + chunk_size self) (len text) <? len text).
  - destruct (snap self _ separators) as [w'|] eqn:E.
    + intros _. cbn [default]. by eapply snap_longer.
    + intros H. apply bool_decide_eq_true in H. by destruct H.
  - intros H. apply bool_decide_eq_true in H. by destruct H.
Qed.

Lemma passes_snapped_longer self text source fuel v p :
  In p (passes self text source fuel v) ->
  p_snapped p = true ->
  2 * chunk_size self < 5 * len (p_chunk_text p).
Proof.
  revert v. induction fuel as [|fuel IH]; intros v.
  - simpl. by destruct (start v <? len text).
  - rewrite passes_S. destruct (start v <? len text); [|done].
    pose proof (body_snapped_longer self text source v) as Hb.
    destruct (body self text source v) as [[q v'] [|]];
      cbn [fst snd] in Hb.
    + intros [<-|Hin]; [done | by eapply IH].
    + intros [<-|[]]. done.
Qed.

Lemma body_chunks self txt source v :
  map text (chunks (body self txt source v).1.2) =
  map text (chunks v)
  ++ map (fun p => strip (p_chunk_text p))
       (filter (fun p => p_appended p = true)
               [(body self txt source v).1.1]).
Proof.
  unfold body. cbn [fst snd chunks p_appended p_chunk_text].
  destruct (negb (bool_decide (strip _ = []))) eqn:Ea.
  - rewrite filter_cons_True by done. by rewrite map_app.
  - rewrite filter_cons_False by (simpl; congruence).
    by rewrite app_nil_r.
Qed.

(** The chunks returned are the trimmed windows of the passes that
    appended one, in order. *)
Lemma while_chunks_of_passes self txt source fuel v cs :
  while self txt source fuel v = Some cs ->
  map text cs =
  map text (chunks v)
  ++ map (fun p => strip (p_chunk_text p))
         (filter (fun p => p_appended p = true)
                 (passes self txt source fuel v)).
Proof.
  revert v cs. induction fuel as [|fuel IH]; intros v cs.
  - simpl. destruct (start v <? len txt); [done|]. intros [= <-].
    by rewrite app_nil_r.
  - rewrite while_S, passes_S. destruct (start v <? len txt);
      [|intros [= <-]; by rewrite app_nil_r].
    pose proof (body_chunks self txt source v) as Hb.
    destruct (body self txt source v) as [[q v'] [|]];
      cbn [fst snd] in Hb.
    + intros H. rewrite (IH _ _ H), Hb.
      change (q :: passes self txt source fuel v')
        with ([q] ++ passes self txt source fuel v').
      by rewrite filter_app, map_app, app_assoc.
    + intros [= <-]. done.
Qed.

Lemma chunks_of_passes self fuel txt source cs :
  split_into_chunks self fuel txt source = Some cs ->
  map text cs =
  map (fun p => strip (p_chunk_text p))
      (filter (fun p => p_appended p = true)
              (split_passes self fuel txt source)).
Proof.
  unfold split_into_chunks, split_passes.
  destruct (bool_decide (strip txt = [])); [by intros [= <-]|].
  intros H. by rewrite (while_chunks_of_passes _ _ _ _ _ _ H).
Qed.

(** C8.  In every pass of [split_into_chunks] whose window was
    shortened by boundary snapping, the window that results (the
    chunk before whitespace trimming) is longer than 40% of
    [chunk_size]: [2 * chunk_size < 5 * len]. *)
Theorem snapped_window_exceeds_threshold self fuel txt source p :
  In p (split_passes self fuel txt source) ->
  p_snapped p = true ->
  2 * chunk_size self < 5 * len (p_chunk_text p).
Proof.
  unfold split_passes.
  destruct (bool_decide (strip txt = [])); [done|].
  apply passes_snapped_longer.
Qed.

Lemma snapped_window_exceeds_threshold_witness :
  let p := {| p_start := 0; p_end := 502;
              p_chunk_text := repeat 97%N 500 ++ [46; 32]%N;
              p_snapped := true; p_appended := true |} in
  In p (split_passes defaults 5 Examples.one_sentence_end [])
  /\ 2 * chunk_size defaults < 5 * len (p_chunk_text p).
Proof.
  split.
  - vm_compute. left. reflexivity.
  - apply (snapped_window_exceeds_threshold defaults 5
             Examples.one_sentence_end []).
    + vm_compute. left. reflexivity.
    + reflexivity.
Defined.

(** *** The loop does not always end *)

(** With [chunk_size = 10] and [chunk_overlap = 6], a pass that
    starts at offset 0 of [one_newline] snaps its window at the
    newline (offset 5, past the threshold 4), ends at 6 and sets
    [start] to [6 - 6 = 0]: the variables come back with only
    [chunk_id] and [chunks] grown. *)
Lemma narrow_body_repeats source i cs :
  body Examples.narrow Examples.one_newline source
       {| start := 0; chunk_id := i; chunks := cs |} =
  ({| p_start := 0; p_end := 6;
      p_chunk_text := repeat 97%N 5 ++ [10%N];
      p_snapped := true; p_appended := true |},
   {| start := 0; chunk_id := i + 1;
      chunks := cs ++ [{| id := source ++ lit "_chunk_" ++ of_Z i;
                          text := repeat 97%N 5;
                          source := source;
                          chunk_index := i |}] |},
   Continue).
Proof. reflexivity. Qed.

Lemma narrow_while_runs_on source fuel i cs :
  while Examples.narrow Examples.one_newline source fuel
        {| start := 0; chunk_id := i; chunks := cs |} = None.
Proof.
  revert i cs. induction fuel as [|fuel IH]; intros i cs; [done|].
  rewrite while_S, narrow_body_repeats. cbn [start]. apply IH.
Qed.

(** C4, at [chunk_size = 10], [chunk_overlap = 6] and the
    20-character text [one_newline]: the overlap is below the chunk
    size and the text is not empty, yet however many passes the loop
    is given, [split_into_chunks] has not returned. *)
Theorem split_into_chunks_runs_forever :
  chunk_overlap Examples.narrow < chunk_size Examples.narrow
  /\ len Examples.one_newline = 20
  /\ forall fuel source,
       split_into_chunks Examples.narrow fuel Examples.one_newline source
       = None.
Proof.
  split; [done|]. split; [done|].
  intros fuel source. unfold split_into_chunks.
  change (strip Examples.one_newline) with Examples.one_newline.
  rewrite bool_decide_eq_false_2 by done.
  apply narrow_while_runs_on.
Qed.

(** *** When the loop does end *)

(** With an overlap that is not negative, below the chunk size and at
    most two fifths of it, a pass that continues moves [start]
    forward. *)
Lemma body_advances self txt source v :
  0 <= chunk_overlap self ->
  5 * chunk_overlap self <= 2 * chunk_size self ->
  chunk_overlap self < chunk_size self ->
  0 <= start v < len txt ->
  (body self txt source v).2 = Continue ->
  start v < start (body self txt source v).1.2 < len txt.
Proof.
  intros Hco Hfifth Hlt Hstart. unfold body.
  cbn [fst snd start].
  destruct (Z.min (start v + chunk_size self) (len txt) <? len txt) eqn:E.
  - apply Z.ltb_lt in E.
    destruct (snap self _ separators) as [ct|] eqn:Es.
    + apply snap_longer in Es.
      destruct (len txt <=? start v + len ct - chunk_overlap self) eqn:E1;
        [done|].
      intros _. lia.
    + destruct (len txt <=? Z.min (start v + chunk_size self) (len txt)
                            - chunk_overlap self) eqn:E1; [done|].
      intros _. lia.
  - apply Z.ltb_ge in E.
    destruct (len txt <=? Z.min (start v + chunk_size self) (len txt)
                          - chunk_overlap self); [done|].
    rewrite (proj2 (Z.eqb_eq _ _)) by lia. done.
Qed.

Lemma while_terminates self txt source (n : nat) :
  0 <= chunk_overlap self ->
  5 * chunk_overlap self <= 2 * chunk_size self ->
  chunk_overlap self < chunk_size self ->
  forall v,
    0 <= start v -> len txt - start v <= Z.of_nat n ->
    exists cs, while self txt source n v = Some cs.
Proof.
  intros Hco Hfifth Hlt. induction n as [|n IH]; intros v H0 Hn.
  - cbn [while]. destruct (start v <? len txt) eqn:E; [lia|]. eauto.
  - rewrite while_S. destruct (start v <? len txt) eqn:E; [|eauto].
    apply Z.ltb_lt in E.
    pose proof (body_advances self txt source v Hco Hfifth Hlt
                  (conj H0 E)) as Hadv.
    destruct (body self txt source v) as [[q v'] [|]]; cbn [fst snd] in Hadv.
    + apply IH; specialize (Hadv eq_refl); lia.
    + eauto.
Qed.

(** With [0 <= chunk_overlap < chunk_size] and
    [chunk_overlap <= 0.4 * chunk_size] (the defaults 1000 and 200
    among them), [split_into_chunks] returns for every text, after at
    most as many passes as the stripped text has characters. *)
Lemma split_into_chunks_terminates_small_overlap self txt source :
  0 <= chunk_overlap self ->
  5 * chunk_overlap self <= 2 * chunk_size self ->
  chunk_overlap self < chunk_size self ->
  exists cs,
    split_into_chunks self (length (strip txt)) txt source = Some cs.
Proof.
  intros Hco Hfifth Hlt. unfold split_into_chunks.
  destruct (bool_decide (strip txt = [])); [eauto|].
  apply while_terminates; try done. cbn. unfold len. lia.
Qed.

(** *** The 2500-character scenario *)

Lemma body_unsnapped self txt source v :
  -2 <= chunk_size self ->
  no_boundary_markers txt = true ->
  strip (slice txt (start v)
               (Z.min (start v + chunk_size self) (len txt))) <> [] ->
  body self txt source v =
  (let end_ := Z.min (start v + chunk_size self) (len txt) in
   let clean := strip (slice txt (start v) end_) in
   ({| p_start := start v; p_end := end_;
       p_chunk_text := slice txt (start v) end_;
       p_snapped := false; p_appended := true |},
    {| start := end_ - chunk_overlap self;
       chunk_id := chunk_id v + 1;
       chunks := chunks v ++
                 [{| id := source ++ lit "_chunk_" ++ of_Z (chunk_id v);
                     text := clean; source := source;
                     chunk_index := chunk_id v |}] |},
    if len txt <=? end_ - chunk_overlap self then Break
    else if end_ =? len txt then Break else Continue)).
Proof.
  intros Hcs Hno Hclean. unfold body.
  assert ((if Z.min (start v + chunk_size self) (len txt) <? len txt
           then snap self
                  (slice txt (start v)
                     (Z.min (start v + chunk_size self) (len txt)))
                  separators
           else None) = None) as ->.
  { destruct (_ <? _); [|done]. apply snap_absent; [done|].
    intros sep Hin. apply contains_slice.
    unfold no_boundary_markers in Hno. rewrite forallb_forall in Hno.
    specialize (Hno sep Hin). by destruct (contains sep txt). }
  cbn [default]. rewrite (bool_decide_eq_false_2 _ Hclean).
  reflexivity.
Qed.

Lemma strip_id s c0 c1 :
  s !! 0%nat = Some c0 -> isspace c0 = false ->
  s !! (length s - 1)%nat = Some c1 -> isspace c1 = false ->
  strip s = s.
Proof.
  intros H0 Hc0 H1 Hc1. destruct s as [|c s]; [done|].
  injection H0 as ->. unfold strip. rewrite lstrip_id by done.
  destruct (exists_last (l := c0 :: s)) as (s' & c' & E); [done|].
  rewrite E in H1 |- *. rewrite length_app in H1. simpl in H1.
  rewrite lookup_app_r in H1 by lia.
  replace (length s' + 1 - 1 - length s')%nat with 0%nat in H1 by lia.
  injection H1 as ->. by apply rstrip_id.
Qed.

Lemma nonspace_at_Some s k :
  nonspace_at s k = true -> exists c, s !! k = Some c /\ isspace c = false.
Proof.
  unfold nonspace_at. destruct (s !! k) as [c|]; [|done].
  intros H. exists c. split; [done|]. by destruct (isspace c).
Qed.

(** A window that holds a character which is not whitespace does not
    trim to nothing. *)
Lemma window_not_blank s i j (k : nat) :
  0 <= i -> i <= Z.of_nat k < j -> j <= len s ->
  nonspace_at s k = true -> strip (slice s i j) <> [].
Proof.
  intros Hi Hk Hj H. apply nonspace_at_Some in H as (c & Hc & Hsp).
  eapply strip_nonempty; [|exact Hsp].
  rewrite slice_lookup; done.
Qed.

(** One pass whose window [[b, e)] is not shortened and not blank. *)
Lemma body_window self txt source v e :
  e = Z.min (start v + chunk_size self) (len txt) ->
  -2 <= chunk_size self ->
  no_boundary_markers txt = true ->
  strip (slice txt (start v) e) <> [] ->
  body self txt source v =
  ({| p_start := start v; p_end := e;
      p_chunk_text := slice txt (start v) e;
      p_snapped := false; p_appended := true |},
   {| start := e - chunk_overlap self;
      chunk_id := chunk_id v + 1;
      chunks := chunks v ++
                [{| id := source ++ lit "_chunk_" ++ of_Z (chunk_id v);
                    text := strip (slice txt (start v) e);
                    source := source;
                    chunk_index := chunk_id v |}] |},
   if len txt <=? e - chunk_overlap self then Break
   else if e =? len txt then Break else Continue).
Proof. intros -> Hcs Hno Hclean. by apply body_unsnapped. Qed.

(** C1, as amended.  A text of exactly 2500 characters with no
    boundary marker, whose first and last characters are not
    whitespace and which has a character that is not whitespace at
    some offset in 800..1799, is split (chunk size 1000, overlap 200)
    into exactly 3 chunks, cut from the windows that start at 0, 800
    and 1600; the third window reaches the end of the text and the
    loop stops there. *)
Theorem split_2500_three_chunks txt source (k fuel : nat) :
  length txt = 2500%nat ->
  no_boundary_markers txt = true ->
  nonspace_at txt 0 = true ->
  nonspace_at txt 2499 = true ->
  (800 <= k < 1800)%nat ->
  nonspace_at txt k = true ->
  (3 <= fuel)%nat ->
  split_into_chunks defaults fuel txt source =
    Some [window_chunk txt source 0 1000 0;
          window_chunk txt source 800 1800 1;
          window_chunk txt source 1600 2500 2]
  /\ chunk_starts defaults fuel txt source = [0; 800; 1600].
Proof.
  intros Hlen Hno H0 Hlast Hk Hmid Hfuel.
  assert (len txt = 2500) as Hl by (unfold len; lia).
  assert (strip txt = txt) as Hstrip.
  { apply nonspace_at_Some in H0 as (c0 & ? & ?).
    apply nonspace_at_Some in Hlast as (c1 & ? & ?).
    apply (strip_id txt c0 c1); try done. by rewrite Hlen. }
  assert (txt <> []) as Hne by (intros ->; done).
  assert (strip (slice txt 0 1000) <> []) as Hw0.
  { apply (window_not_blank txt 0 1000 0); (done || lia). }
  assert (strip (slice txt 800 1800) <> []) as Hw1.
  { apply (window_not_blank txt 800 1800 k); (done || lia). }
  assert (strip (slice txt 1600 2500) <> []) as Hw2.
  { apply (window_not_blank txt 1600 2500 2499); (done || lia). }
  destruct fuel as [|[|[|fuel]]]; try lia.
  unfold chunk_starts, split_passes, split_into_chunks.
  rewrite Hstrip, (bool_decide_eq_false_2 _ Hne).
  rewrite while_S, passes_S.
  rewrite (body_window defaults txt source init 1000);
    [|cbn; lia|cbn; lia|done|done].
  cbn [start init chunk_overlap defaults chunk_id chunks].
  rewrite Hl. change (0 <? 2500) with true.
  change (2500 <=? 1000 - 200) with false.
  change (1000 =? 2500) with false. cbv iota.
  rewrite while_S, passes_S.
  rewrite (body_window defaults txt source _ 1800);
    [|cbn; lia|cbn; lia|done|done].
  cbn [start init chunk_overlap defaults chunk_id chunks].
  rewrite Hl. change (1000 - 200 <? 2500) with true.
  change (2500 <=? 1800 - 200) with false.
  change (1800 =? 2500) with false. cbv iota.
  rewrite while_S, passes_S.
  rewrite (body_window defaults txt source _ 2500);
    [|cbn; lia|cbn; lia|done|done].
  cbn [start init chunk_overlap defaults chunk_id chunks].
  rewrite Hl. change (1800 - 200 <? 2500) with true.
  change (2500 <=? 2500 - 200) with false.
  change (2500 =? 2500) with true. cbv iota.
  split; reflexivity.
Qed.

Lemma split_2500_three_chunks_witness :
  split_into_chunks defaults 3 Examples.letters_2500 [] =
    Some [window_chunk Examples.letters_2500 [] 0 1000 0;
          window_chunk Examples.letters_2500 [] 800 1800 1;
          window_chunk Examples.letters_2500 [] 1600 2500 2]
  /\ chunk_starts defaults 3 Examples.letters_2500 [] = [0; 800; 1600].
Proof.
  apply (split_2500_three_chunks Examples.letters_2500 [] 800 3).
  - reflexivity.
  - vm_compute. reflexivity.
  - vm_compute. reflexivity.
  - vm_compute. reflexivity.
  - lia.
  - vm_compute. reflexivity.
  - lia.
Defined.

(** C1 as stated fails on 2500 letters [a]: the text has 2500
    characters and no boundary marker; three passes return exactly 3
    chunks, which start at 0, 800 and 1600; and however long the loop
    is run it never returns 4 chunks, nor chunks that start at
    0, 800, 1600, 2400. *)
Lemma split_2500_not_four_chunks :
  length Examples.letters_2500 = 2500%nat
  /\ no_boundary_markers Examples.letters_2500 = true
  /\ (exists c0 c1 c2,
         split_into_chunks defaults 3 Examples.letters_2500 []
         = Some [c0; c1; c2])
  /\ chunk_starts defaults 3 Examples.letters_2500 [] = [0; 800; 1600]
  /\ forall fuel,
       (forall cs,
           split_into_chunks defaults fuel Examples.letters_2500 []
           = Some cs -> length cs = 3%nat)
       /\ chunk_starts defaults fuel Examples.letters_2500 []
          <> [0; 800; 1600; 2400].
Proof.
  split; [reflexivity|]. split; [vm_compute; reflexivity|].
  split; [do 3 eexists; vm_compute; reflexivity|].
  split; [vm_compute; reflexivity|].
  intros fuel. destruct fuel as [|[|[|fuel]]].
  - split; [intros cs H; vm_compute in H; discriminate|].
    vm_compute. discriminate.
  - split; [intros cs H; vm_compute in H; discriminate|].
    vm_compute. discriminate.
  - split; [intros cs H; vm_compute in H; discriminate|].
    vm_compute. discriminate.
  - split.
    + intros cs H. vm_compute in H. injection H as <-. reflexivity.
    + vm_compute. discriminate.
Qed.

End ChunkerProps.

(** ** The knowledge index manager *)

Module IndexProps.
Import PyStr rag_engine rag_engine.YandexRAG.

Lemma dict_get_set d k v : PyDict.get (PyDict.set d k v) k = Some v.
Proof.
  induction d as [|[k' v'] d IH]; simpl.
  - by rewrite bool_decide_eq_true_2.
  - destruct (bool_decide (k' = k)) eqn:E; simpl; rewrite E; done.
Qed.

(** One collaborator call leaves the object and the sleeps alone and
    appends itself to the calls. *)
Lemma call_spec {O} env c (s : Store O) :
  call env c s =
  (respond env (calls s) c,
   {| self := self s; calls := calls s ++ [c]; slept := slept s |}).
Proof. reflexivity. Qed.

(** The best-effort remote deletion never raises and never touches
    the object. *)
Lemma delete_remote_file_ok env fid s :
  exists s', delete_remote_file env fid s = (Ok tt, s')
             /\ self s' = self s.
Proof.
  unfold delete_remote_file, best_effort, try_except, bind, call, ret.
  destruct (respond env (calls s) (files_get fid)) as [file|e];
    [|by eexists].
  simpl. destruct (respond env _ (file_delete file)) as [[]|e];
    by eexists.
Qed.

Lemma for_each_delete_ok env fids s :
  exists s', for_each fids (delete_remote_file env) s = (Ok tt, s')
             /\ self s' = self s.
Proof.
  revert s. induction fids as [|fid fids IH]; intros s; simpl.
  - by eexists.
  - unfold bind.
    destruct (delete_remote_file_ok env fid s) as (s1 & -> & H1).
    destruct (IH s1) as (s2 & -> & H2). exists s2. split; [done|].
    congruence.
Qed.

Lemma remove_file_ok env source_name s :
  exists s', remove_file env source_name s = (Ok tt, s')
             /\ _index_dirty (self s') = _index_dirty (self s).
Proof.
  unfold remove_file, bind, get, modify, ret. simpl.
  destruct (PyDict.get (_files (self s)) source_name) as [fid|];
    [|by eexists].
  destruct (bool_decide (fid = [])); [by eexists|].
  edestruct (delete_remote_file_ok env fid) as (s' & -> & H).
  exists s'. split; [done|]. by rewrite H.
Qed.

Lemma clear_all_ok env s :
  exists s', clear_all env s = (Ok tt, s')
             /\ _index_dirty (self s') = true.
Proof.
  unfold clear_all. unfold bind at 1. unfold get at 1.
  set (k3 := fun _ : unit =>
               bind (for_each (PyDict.values (_files (self s)))
                              (delete_remote_file env))
                    (fun _ => bind (modify (set_files []))
                                (fun _ => modify (set_index_dirty true)))).
  assert (forall s0, exists s', k3 tt s0 = (Ok tt, s')
                                /\ _index_dirty (self s') = true) as H3.
  { intros s0. unfold k3, bind.
    destruct (for_each_delete_ok env (PyDict.values (_files (self s))) s0)
      as (s1 & -> & _).
    unfold modify. simpl. by eexists. }
  set (k2 := fun _ : unit =>
               bind match _search_index (self s) with
                    | Some si =>
                      bind (best_effort (call env (search_index_delete si)))
                           (fun _ => modify (set_search_index None))
                    | None => ret tt
                    end k3).
  assert (forall s0, exists s', k2 tt s0 = (Ok tt, s')
                                /\ _index_dirty (self s') = true) as H2.
  { intros s0. unfold k2, bind.
    destruct (_search_index (self s)) as [si|]; [|apply H3].
    unfold best_effort, try_except, call, ret, modify.
    destruct (respond env (calls s0) (search_index_delete si)) as [[]|e];
      apply H3. }
  change (exists s', bind match _assistant (self s) with
                          | Some a =>
                            bind (best_effort (call env (assistant_delete a)))
                                 (fun _ => modify (set_assistant None))
                          | None => ret tt
                          end k2 s = (Ok tt, s')
                     /\ _index_dirty (self s') = true).
  unfold bind.
  destruct (_assistant (self s)) as [a|]; [|apply H2].
  unfold best_effort, try_except, call, ret, modify.
  destruct (respond env (calls s) (assistant_delete a)) as [[]|e];
    apply H2.
Qed.

Lemma add_file_ok_dirty env file_path s name s' :
  add_file env file_path s = (Ok name, s') ->
  _index_dirty (self s') = true.
Proof.
  unfold add_file, index_file, bind, try_except, call, get, modify,
    raise, ret.
  simpl.
  destruct (respond env (calls s) (files_upload _ _)) as [f|e]; [|done].
  simpl. destruct (_search_index (self s)) as [si|].
  - destruct (respond env _ (add_files_deferred si f)) as [op|e]; [|done].
    simpl. destruct (respond env _ (add_wait op)) as [[]|e]; [|done].
    by intros [= _ <-].
  - destruct (respond env _ (search_indexes_create_deferred f))
      as [op|e]; [|done].
    simpl. destruct (respond env _ (create_wait op)) as [si|e]; [|done].
    by intros [= _ <-].
Qed.

(** C2, as amended.  From every state of the manager: a successful
    [add_file] leaves the dirty flag true; [clear_all] always
    succeeds and leaves it true; [remove_file] always succeeds and
    leaves the flag as it found it. *)
Theorem dirty_flag_after_mutation env (s : Store YandexRAG.t) :
  (forall file_path name s',
      add_file env file_path s = (Ok name, s') ->
      _index_dirty (self s') = true)
  /\ (exists s', clear_all env s = (Ok tt, s')
                 /\ _index_dirty (self s') = true)
  /\ (forall source_name,
         exists s', remove_file env source_name s = (Ok tt, s')
                    /\ _index_dirty (self s') = _index_dirty (self s)).
Proof.
  split; [|split].
  - intros file_path name s'. apply add_file_ok_dirty.
  - apply clear_all_ok.
  - intros source_name. apply remove_file_ok.
Qed.

Lemma dirty_flag_after_mutation_witness :
  let s := Examples.at_start Examples.settled_yandex in
  let s' := (add_file Examples.all_fine (lit "docs/new.txt") s).2 in
  add_file Examples.all_fine (lit "docs/new.txt") s
  = (Ok (lit "new.txt"), s')
  /\ calls s' = [files_upload (lit "docs/new.txt") (lit "new.txt");
                 add_files_deferred 22%N {| file_id := lit "file-1" |};
                 add_wait 23%N]
  /\ _index_dirty (self s') = true.
Proof.
  intros s s'. split; [vm_compute; reflexivity|].
  split; [vm_compute; reflexivity|].
  refine (proj1 (dirty_flag_after_mutation Examples.all_fine s)
                (lit "docs/new.txt") (lit "new.txt") s' _).
  vm_compute. reflexivity.
Defined.

(** C2 as stated fails for [remove_file]: in the steady state (index
    and assistant built, flag false) removing a tracked file
    succeeds, deletes the remote file, and leaves the flag false. *)
Lemma remove_file_leaves_flag_false :
  exists s',
    remove_file Examples.all_fine (lit "law.txt")
                (Examples.at_start Examples.settled_yandex)
    = (Ok tt, s')
    /\ _files (self s') = []
    /\ calls s' = [files_get (lit "file-1"); file_delete 11%N]
    /\ _index_dirty (self s') = false.
Proof. eexists. split; [vm_compute; reflexivity|]. by vm_compute. Qed.

(** C7.  When the upload returns [yc_file] and the indexing step,
    run in the state reached after recording the file, raises [e]:
    [add_file] raises the indexing [RuntimeError] whose message
    embeds [_parse_grpc_error e] and whose cause is [e]; the entry
    [name -> yc_file.id] is still in [_files]; and the dirty flag is
    as it was. *)
Theorem add_file_indexing_failure_keeps_upload
    env (s s2 : Store YandexRAG.t) file_path yc_file e :
  let name := path_name env file_path in
  respond env (calls s) (files_upload file_path name) = Ok yc_file ->
  index_file env yc_file
    {| self := set_files (PyDict.set (_files (self s)) name
                                      (file_id yc_file)) (self s);
       calls := calls s ++ [files_upload file_path name];
       slept := slept s |}
  = (Raise e, s2) ->
  add_file env file_path s =
    (Raise (RuntimeError
              (lit "Файл '" ++ name
               ++ lit "' загружен, но ошибка индексации:"
               ++ nl ++ _parse_grpc_error e) (Some e)), s2)
  /\ PyDict.get (_files (self s2)) name = Some (file_id yc_file)
  /\ _index_dirty (self s2) = _index_dirty (self s).
Proof.
  intros name Hup Hidx. split.
  - unfold add_file. fold name. unfold bind at 1. unfold try_except at 1.
    rewrite call_spec, Hup. unfold bind at 1. unfold modify at 1.
    cbn [self calls slept]. unfold bind at 1. unfold try_except at 1.
    rewrite Hidx. reflexivity.
  - revert Hidx.
    unfold index_file, bind, call, get, modify, ret. simpl.
    destruct (_search_index (self s)) as [si|].
    + destruct (respond env _ (add_files_deferred si yc_file)) as [op|e'].
      * simpl. destruct (respond env _ (add_wait op)) as [[]|e'']; [done|].
        intros [= _ <-]. simpl. by rewrite dict_get_set.
      * intros [= _ <-]. simpl. by rewrite dict_get_set.
    + destruct (respond env _ (search_indexes_create_deferred yc_file))
        as [op|e'].
      * simpl. destruct (respond env _ (create_wait op)) as [si|e''];
          [done|].
        intros [= _ <-]. simpl. by rewrite dict_get_set.
      * intros [= _ <-]. simpl. by rewrite dict_get_set.
Qed.

Lemma add_file_indexing_failure_keeps_upload_witness :
  let name := lit "law.txt" in
  let e := ServiceError (lit "INVALID_ARGUMENT: unsupported file") in
  let yc_file := {| file_id := lit "file-1" |} in
  let s2 :=
    {| self := set_files [(name, lit "file-1")] Examples.fresh_yandex;
       calls := [files_upload (lit "docs/law.txt") name;
                 search_indexes_create_deferred yc_file];
       slept := [] |} in
  add_file Examples.indexing_refused (lit "docs/law.txt")
           (Examples.at_start Examples.fresh_yandex) =
    (Raise (RuntimeError
              (lit "Файл '" ++ name
               ++ lit "' загружен, но ошибка индексации:"
               ++ nl ++ _parse_grpc_error e) (Some e)), s2)
  /\ PyDict.get (_files (self s2)) name = Some (lit "file-1")
  /\ _index_dirty (self s2) = true.
Proof.
  intros name e yc_file s2.
  refine (add_file_indexing_failure_keeps_upload
            Examples.indexing_refused
            (Examples.at_start Examples.fresh_yandex) s2
            (lit "docs/law.txt") yc_file e _ _).
  - vm_compute. reflexivity.
  - vm_compute. reflexivity.
Defined.

End IndexProps.

(** ** The retry wrapper *)

Module RetryProps.
Import PyStr rag_engine.

Section Retry.
Context {O : Type}.
Variable env : Env.
Variable c : Call.
Variables max_retries base_delay : Z.

Lemma retry_loop_step_ok (s : Store O) v attempt attempts last :
  respond env (calls s) c = Ok v ->
  retry_loop (call env c) max_retries base_delay (attempt :: attempts)
             last s
  = (Ok v, {| self := self s; calls := calls s ++ [c];
              slept := slept s |}).
Proof.
  intros H. cbn [retry_loop]. unfold try_except, call. by rewrite H.
Qed.

Lemma retry_loop_step_raise (s : Store O) e attempt attempts last :
  respond env (calls s) c = Raise e ->
  is_rate_limit e && (attempt <? max_retries) = false ->
  retry_loop (call env c) max_retries base_delay (attempt :: attempts)
             last s
  = (Raise e, {| self := self s; calls := calls s ++ [c];
                 slept := slept s |}).
Proof.
  intros H Hno. cbn [retry_loop]. unfold try_except, call.
  rewrite H, Hno. reflexivity.
Qed.

Lemma retry_loop_step_retry (s : Store O) e attempt attempts last :
  respond env (calls s) c = Raise e ->
  is_rate_limit e = true -> attempt < max_retries ->
  0 <= base_delay * 2 ^ attempt ->
  retry_loop (call env c) max_retries base_delay (attempt :: attempts)
             last s
  = retry_loop (call env c) max_retries base_delay attempts (Some e)
      {| self := self s; calls := calls s ++ [c];
         slept := slept s ++ [base_delay * 2 ^ attempt] |}.
Proof.
  intros H Hrl Hlt Hd. cbn [retry_loop]. unfold try_except at 1.
  unfold call at 1. rewrite H, Hrl.
  rewrite (proj2 (Z.ltb_lt _ _) Hlt). cbn [andb].
  unfold bind, sleep. cbn [self calls slept].
  destruct (base_delay * 2 ^ attempt <? 0) eqn:E; [lia|]. reflexivity.
Qed.

(** [k] rate-limit failures, then success, with attempts to spare. *)
Lemma retry_loop_succeeds (k : nat) :
  forall (a n : nat) last (s : Store O) (v : Resp c),
  (k < n)%nat ->
  Z.of_nat (a + k) <= max_retries ->
  0 <= base_delay ->
  (forall i, (i < k)%nat ->
             exists e, respond env (calls s ++ repeat c i) c = Raise e
                       /\ is_rate_limit e = true) ->
  respond env (calls s ++ repeat c k) c = Ok v ->
  retry_loop (call env c) max_retries base_delay
             (map Z.of_nat (seq a n)) last s
  = (Ok v,
     {| self := self s;
        calls := calls s ++ repeat c (S k);
        slept := slept s
                 ++ map (fun i => base_delay * 2 ^ Z.of_nat (a + i))
                        (seq 0 k) |}).
Proof.
  induction k as [|k IH]; intros a n last s v Hn Ha Hb Hfail Hok.
  - destruct n as [|n]; [lia|]. cbn [seq map].
    rewrite app_nil_r in Hok.
    rewrite (retry_loop_step_ok _ v) by done.
    cbn [repeat seq map]. by rewrite app_nil_r.
  - destruct n as [|n]; [lia|]. cbn [seq map].
    destruct (Hfail 0%nat) as (e & He & Hrl); [lia|].
    cbn [repeat] in He. rewrite app_nil_r in He.
    rewrite (retry_loop_step_retry _ e); [|done|done|lia|].
    2: { apply Z.mul_nonneg_nonneg; [done|].
         apply Z.pow_nonneg. lia. }
    rewrite (IH (S a) n (Some e) _ v); cbn [self calls slept].
    + f_equal. f_equal.
      * rewrite <- app_assoc. done.
      * rewrite <- app_assoc. f_equal. cbn [seq map].
        rewrite Nat.add_0_r. f_equal.
        rewrite <- seq_shift, map_map. apply map_ext. intros i.
        do 3 f_equal. lia.
    + lia.
    + lia.
    + done.
    + intros i Hi. destruct (Hfail (S i)) as (e' & He' & Hrl'); [lia|].
      exists e'. split; [|done]. rewrite <- app_assoc. exact He'.
    + rewrite <- app_assoc. exact Hok.
Qed.

Lemma range_of_nat (k : nat) : range (Z.of_nat k) = map Z.of_nat (seq 0 k).
Proof. unfold range. by rewrite Nat2Z.id. Qed.

(** C5.  When the operation (a collaborator call [c]) raises a
    rate-limit error on each of its first [k] invocations and
    returns [v] on the next, with [k <= max_retries] and a delay
    that is not negative, [_retry_call] returns [v] after exactly
    [k + 1] invocations, having slept [base_delay * 2^0], ...,
    [base_delay * 2^(k-1)].  When the first invocation raises an
    error that is not a rate-limit error (and [max_retries] is not
    negative), [_retry_call] raises that same error after exactly
    one invocation and no sleep. *)
Theorem retry_call_backoff (s : Store O) :
  (forall (k : nat) (v : Resp c),
      Z.of_nat k <= max_retries ->
      0 <= base_delay ->
      (forall i, (i < k)%nat ->
                 exists e,
                   respond env (calls s ++ repeat c i) c = Raise e
                   /\ is_rate_limit e = true) ->
      respond env (calls s ++ repeat c k) c = Ok v ->
      _retry_call (call env c) max_retries base_delay s
      = (Ok v,
         {| self := self s;
            calls := calls s ++ repeat c (S k);
            slept := slept s
                     ++ map (fun i => base_delay * 2 ^ i)
                            (range (Z.of_nat k)) |}))
  /\ (forall e,
         0 <= max_retries ->
         respond env (calls s) c = Raise e ->
         is_rate_limit e = false ->
         _retry_call (call env c) max_retries base_delay s
         = (Raise e,
            {| self := self s; calls := calls s ++ [c];
               slept := slept s |})).
Proof.
  split.
  - intros k v Hk Hb Hfail Hok. unfold _retry_call.
    replace (range (max_retries + 1))
      with (map Z.of_nat (seq 0 (Z.to_nat (max_retries + 1))))
      by reflexivity.
    rewrite (retry_loop_succeeds k 0 _ None s v); try done; try lia.
    rewrite range_of_nat, map_map. done.
  - intros e Hm He Hrl. unfold _retry_call, range.
    destruct (Z.to_nat (max_retries + 1)) as [|n] eqn:En; [lia|].
    cbn [seq map]. apply retry_loop_step_raise; [done|].
    by rewrite Hrl.
Qed.

End Retry.

Lemma retry_call_backoff_witness :
  let c := generate_content Examples.sample_image in
  _retry_call (call Examples.rate_limited_twice c)
              MAX_RETRIES RETRY_BASE_DELAY (Examples.at_start tt)
  = (Ok 52%N, {| self := tt; calls := [c; c; c]; slept := [5; 10] |})
  /\ _retry_call (call Examples.vision_down c)
                 MAX_RETRIES RETRY_BASE_DELAY (Examples.at_start tt)
     = (Raise (ServiceError (lit "500 Internal error")),
        {| self := tt; calls := [c]; slept := [] |}).
Proof.
  intros c. split.
  - refine (proj1 (retry_call_backoff Examples.rate_limited_twice c
                     MAX_RETRIES RETRY_BASE_DELAY (Examples.at_start tt))
                  2%nat 52%N _ _ _ _).
    + unfold MAX_RETRIES. lia.
    + unfold RETRY_BASE_DELAY. lia.
    + intros i Hi. exists (ServiceError (lit "429 Too Many Requests")).
      destruct i as [|[|i]]; [split; vm_compute; reflexivity ..|lia].
    + vm_compute. reflexivity.
  - refine (proj2 (retry_call_backoff Examples.vision_down c
                     MAX_RETRIES RETRY_BASE_DELAY (Examples.at_start tt))
                  (ServiceError (lit "500 Internal error")) _ _ _).
    + unfold MAX_RETRIES. lia.
    + vm_compute. reflexivity.
    + vm_compute. reflexivity.
Defined.

End RetryProps.

(** ** The analysis orchestrator *)

Module AnalysisProps.
Import PyStr rag_engine rag_engine.RAGEngine.

Section Frames.
Context {O : Type}.
Variable P : Call -> Prop.

Lemma makes_only_ret {A} (a : A) : makes_only P (ret a : M O A).
Proof.
  intros s r s' [= <- <-]. exists []. by rewrite app_nil_r.
Qed.

Lemma makes_only_raise {A} e : makes_only P (raise e : M O A).
Proof.
  intros s r s' [= <- <-]. exists []. by rewrite app_nil_r.
Qed.

Lemma makes_only_call env c : P c -> makes_only P (call env c : M O _).
Proof.
  intros Hc s r s' [= <- <-]. exists [c]. cbn. by repeat constructor.
Qed.

Lemma makes_only_sleep d : makes_only P (sleep d : M O unit).
Proof.
  intros s r s'. unfold sleep. destruct (d <? 0); intros [= <- <-];
    exists []; by rewrite app_nil_r.
Qed.

Lemma makes_only_bind {A B} (m : M O A) (k : A -> M O B) :
  makes_only P m -> (forall a, makes_only P (k a)) ->
  makes_only P (bind m k).
Proof.
  intros Hm Hk s r s'. unfold bind.
  destruct (m s) as [[a|e] s1] eqn:E.
  - intros Hka. destruct (Hm _ _ _ E) as (l1 & H1 & HP1 & Hs1).
    destruct (Hk a _ _ _ Hka) as (l2 & H2 & HP2 & Hs2).
    exists (l1 ++ l2). rewrite H2, H1, app_assoc.
    split; [done|]. split; [by apply Forall_app|congruence].
  - intros [= <- <-]. by apply (Hm _ _ _ E).
Qed.

Lemma makes_only_try {A} (m : M O A) (h : exn -> M O A) :
  makes_only P m -> (forall e, makes_only P (h e)) ->
  makes_only P (try_except m h).
Proof.
  intros Hm Hh s r s'. unfold try_except.
  destruct (m s) as [[a|e] s1] eqn:E.
  - intros [= <- <-]. by apply (Hm _ _ _ E).
  - intros Hhe. destruct (Hm _ _ _ E) as (l1 & H1 & HP1 & Hs1).
    destruct (Hh e _ _ _ Hhe) as (l2 & H2 & HP2 & Hs2).
    exists (l1 ++ l2). rewrite H2, H1, app_assoc.
    split; [done|]. split; [by apply Forall_app|congruence].
Qed.

Lemma makes_only_retry_loop {A} (fn : M O A) mr bd attempts last :
  makes_only P fn ->
  makes_only P (retry_loop fn mr bd attempts last).
Proof.
  intros Hfn. revert last.
  induction attempts as [|a attempts IH]; intros last; cbn [retry_loop].
  - destruct last; apply makes_only_raise.
  - apply makes_only_try; [done|]. intros e.
    destruct (is_rate_limit e && (a <? mr)); [|apply makes_only_raise].
    apply makes_only_bind; [apply makes_only_sleep|]. intros _. apply IH.
Qed.

End Frames.

(** [describe_image] talks to PIL and the vision model only. *)
Lemma describe_image_no_agent_call env image_path :
  makes_only (fun c => is_agent_call c = false)
             (describe_image env image_path).
Proof.
  unfold describe_image.
  apply makes_only_bind;
    [by apply (makes_only_call _ env (Image_open image_path))|].
  intros img. apply makes_only_bind.
  { destruct (_ <? _);
      [by apply (makes_only_call _ env (image_resize img))
      |apply makes_only_ret]. }
  intros img'. apply makes_only_bind.
  { apply makes_only_retry_loop.
    by apply (makes_only_call _ env (generate_content img')). }
  intros response.
  by apply (makes_only_call _ env (response_text response)).
Qed.

(** C6.  In an image analysis (Yandex configured, so that the
    vision step runs) whose [describe_image] raises [e]:
    [analyze_image] returns the message that embeds the first 200
    characters of [str(e)]; none of the calls made is a call on the
    conversational agent; the engine object is unchanged; and
    [analyze], given that image path of an existing file, returns the
    same. *)
Theorem vision_failure_fails_fast
    env (s s' : Store RAGEngine.t) y image_path text e :
  yandex (self s) = Some y ->
  describe_image env image_path s = (Raise e, s') ->
  let message :=
    lit "Ошибка описания изображения (Gemini):" ++ nl
    ++ slice_to (str_of_exn e) 200 in
  analyze_image env image_path text s = (Ok message, s')
  /\ Forall (fun c => is_agent_call c = false) (new_calls s s')
  /\ self s' = self s
  /\ (image_given env (Some image_path) = true ->
      analyze env text (Some image_path) s = (Ok message, s')).
Proof.
  intros Hy Hd message.
  assert (analyze_image env image_path text s = (Ok message, s')) as Ha.
  { unfold analyze_image. unfold bind at 1. unfold get at 1.
    cbn [self]. rewrite Hy. unfold bind at 1. unfold try_except at 1.
    unfold bind at 1. rewrite Hd. reflexivity. }
  destruct (describe_image_no_agent_call env image_path _ _ _ Hd)
    as (l & Hl & HP & Hs).
  split; [done|]. split; [|split; [done|]].
  - unfold new_calls. rewrite Hl, drop_app_length. done.
  - intros Hi. unfold analyze. rewrite Hi. exact Ha.
Qed.

Lemma vision_failure_fails_fast_witness :
  let s := Examples.at_start (Examples.engine (Some Examples.fresh_yandex)) in
  let s' :=
    {| self := Examples.engine (Some Examples.fresh_yandex);
       calls := [Image_open (lit "ad.png");
                 generate_content Examples.sample_image];
       slept := [] |} in
  let message :=
    lit "Ошибка описания изображения (Gemini):" ++ nl
    ++ lit "500 Internal error" in
  analyze_image Examples.vision_down (lit "ad.png") (lit "Скидка 50%") s
  = (Ok message, s')
  /\ Forall (fun c => is_agent_call c = false) (new_calls s s')
  /\ self s' = self s
  /\ (image_given Examples.vision_down (Some (lit "ad.png")) = true ->
      analyze Examples.vision_down (lit "Скидка 50%")
              (Some (lit "ad.png")) s = (Ok message, s')).
Proof.
  intros s s' message.
  refine (vision_failure_fails_fast Examples.vision_down s s'
            Examples.fresh_yandex (lit "ad.png") (lit "Скидка 50%")
            (ServiceError (lit "500 Internal error")) _ _).
  - reflexivity.
  - vm_compute. reflexivity.
Defined.

(** C9.  When no image path is given, or the path is empty or names
    no existing file, and the text is empty or only whitespace,
    [analyze] returns the literal "nothing submitted" message and
    the state is unchanged: no call was made. *)
Theorem analyze_nothing_submitted
    env (s : Store RAGEngine.t) text image_path :
  (image_path = None
   \/ exists p, image_path = Some p
                /\ (p = [] \/ isfile env p = false)) ->
  strip text = [] ->
  analyze env text image_path s
  = (Ok (lit "Не предоставлен материал для проверки. Введите текст или прикрепите изображение."),
     s).
Proof.
  intros Himg Htext. unfold analyze.
  assert (image_given env image_path = false) as ->.
  { destruct Himg as [->|(p & -> & [->|Hf])]; [done|done|].
    cbn. rewrite Hf. by destruct (bool_decide (p = [])). }
  rewrite (bool_decide_eq_true_2 _ Htext). reflexivity.
Qed.

Lemma analyze_nothing_submitted_witness :
  let s := Examples.at_start (Examples.engine (Some Examples.settled_yandex)) in
  analyze Examples.all_fine [32; 10; 9]%N (Some (lit "missing.png")) s
  = (Ok (lit "Не предоставлен материал для проверки. Введите текст или прикрепите изображение."),
     s).
Proof.
  intros s.
  refine (analyze_nothing_submitted Examples.all_fine s [32; 10; 9]%N
            (Some (lit "missing.png")) _ _).
  - right. exists (lit "missing.png"). split; [reflexivity|].
    right. vm_compute. reflexivity.
  - vm_compute. reflexivity.
Defined.

(** C3, at the text ["Скидка 50% только сегодня!"], no image, Yandex
    configured and [assistants.create] raising: [analyze] does not
    return a string, the collaborator's exception comes out of it. *)
Theorem analyze_lets_assistant_failure_escape :
  (analyze Examples.assistant_unavailable
           (lit "Скидка 50% только сегодня!") None
           (Examples.at_start (Examples.engine (Some Examples.fresh_yandex)))).1
  = Raise (ServiceError (lit "UNAVAILABLE: connection reset")).
Proof. vm_compute. reflexivity. Qed.

End AnalysisProps.

(** ** The plain-text loader *)

Module LoaderProps.
Import Loader.

Example load_utf8 :
  _load_txt (Examples.disk_with Examples.privet_utf8) (PyStr.lit "a.txt")
  = Ok [1055; 1088; 1080; 1074; 1077; 1090]%N.
Proof. vm_compute. reflexivity. Qed.

Example load_cp1251 :
  _load_txt (Examples.disk_with Examples.privet_cp1251) (PyStr.lit "a.txt")
  = Ok [1055; 1088; 1080; 1074; 1077; 1090]%N.
Proof. vm_compute. reflexivity. Qed.

Example load_latin_1 :
  _load_txt (Examples.disk_with Examples.stray_byte) (PyStr.lit "a.txt")
  = Ok [65; 152; 10]%N.
Proof. vm_compute. reflexivity. Qed.

Example load_missing :
  _load_txt Examples.empty_disk (PyStr.lit "a.txt")
  = Raise (OSError (PyStr.lit "[Errno 2] No such file or directory")).
Proof. vm_compute. reflexivity. Qed.

(** What a readable file with the bytes [content] loads as: the
    first codec of the list that decodes it. *)
Lemma load_loop_readable fs path content :
  (forall n, fs n path = inr content) ->
  _load_txt fs path =
  Ok (universal_newlines
        match Codec.utf_8_decode content with
        | Some t => t
        | None =>
          match Codec.cp1251_decode content with
          | Some t => t
          | None => Codec.latin_1_decode content
          end
        end).
Proof.
  intros H. unfold _load_txt, encodings. cbn [load_loop decode].
  rewrite !H.
  destruct (Codec.utf_8_decode content); [done|].
  by destruct (Codec.cp1251_decode content).
Qed.

Lemma load_loop_readable_any fs path encs n :
  last encs = Some latin_1 ->
  (forall k, exists content, fs k path = inr content) ->
  exists text, load_loop fs path n encs = Ok text.
Proof.
  intros Hlast Hfs. revert n Hlast.
  induction encs as [|enc encs IH]; intros n Hlast; [done|].
  cbn [load_loop]. destruct (Hfs n) as (content & ->).
  destruct (decode enc content) as [t|] eqn:D; [eauto|].
  destruct encs as [|enc' encs'].
  - injection Hlast as ->. done.
  - apply IH. by rewrite last_cons_cons in Hlast.
Qed.

Lemma load_loop_raises fs path encs n e :
  last encs = Some latin_1 ->
  load_loop fs path n encs = Raise e ->
  exists k, fs k path = inl e.
Proof.
  revert n. induction encs as [|enc encs IH]; intros n Hlast; [done|].
  cbn [load_loop]. destruct (fs n path) as [e'|content] eqn:E.
  - intros [= <-]. eauto.
  - destruct (decode enc content) as [t|] eqn:D; [done|].
    destruct encs as [|enc' encs'].
    + injection Hlast as ->. done.
    + apply IH. by rewrite last_cons_cons in Hlast.
Qed.

(** C10.  Whatever the file system does, every exception that comes
    out of [_load_txt] is one that an [open] or [read] raised,
    unchanged: the [raise ValueError] after the loop is never reached,
    because the last codec, latin-1, decodes any bytes.  When every
    read of the file succeeds, [_load_txt] returns text; when the
    reads give the same bytes each time, it is the text of the first
    codec that decodes them. *)
Theorem load_txt_never_unreadable fs path :
  (forall e, _load_txt fs path = Raise e -> exists n, fs n path = inl e)
  /\ ((forall n, exists content, fs n path = inr content) ->
      exists text, _load_txt fs path = Ok text)
  /\ (forall content,
         (forall n, fs n path = inr content) ->
         _load_txt fs path =
         Ok (universal_newlines
               match Codec.utf_8_decode content with
               | Some t => t
               | None =>
                 match Codec.cp1251_decode content with
                 | Some t => t
                 | None => Codec.latin_1_decode content
                 end
               end)).
Proof.
  split; [|split].
  - intros e. by apply load_loop_raises.
  - by apply load_loop_readable_any.
  - apply load_loop_readable.
Qed.

Lemma load_txt_never_unreadable_witness :
  exists text,
    _load_txt (Examples.disk_with Examples.stray_byte) (PyStr.lit "a.txt")
    = Ok text.
Proof.
  refine (proj1 (proj2 (load_txt_never_unreadable
                          (Examples.disk_with Examples.stray_byte)
                          (PyStr.lit "a.txt"))) _).
  intros n. exists Examples.stray_byte. reflexivity.
Defined.

End LoaderProps.

(** ** More about the chunker *)

Module ChunkerMore.
Import PyStr PyStrFacts DocumentProcessor ChunkerVocabulary ChunkerProps.

(** *** Trimming *)

Lemma lstrip_app_nonspace l c :
  isspace c = false -> lstrip (l ++ [c]) = lstrip l ++ [c].
Proof.
  intros Hc. induction l as [|d l IH]; simpl.
  - by rewrite Hc.
  - destruct (isspace d); [exact IH|done].
Qed.

Lemma rstrip_cons_nonspace c t :
  isspace c = false -> rstrip (c :: t) = c :: rstrip t.
Proof.
  intros Hc. unfold rstrip. simpl.
  rewrite lstrip_app_nonspace by done.
  by rewrite rev_app_distr.
Qed.

(** A trimmed string is empty or starts and ends with a character
    that is not whitespace. *)
Lemma strip_ends s :
  strip s = []
  \/ exists c0 c1,
       strip s !! 0%nat = Some c0 /\ isspace c0 = false
       /\ strip s !! (length (strip s) - 1)%nat = Some c1
       /\ isspace c1 = false.
Proof.
  unfold strip. destruct (lstrip s) as [|c t] eqn:E; [by left|].
  right. pose proof (lstrip_head _ _ _ E) as Hc.
  rewrite rstrip_cons_nonspace by done. exists c.
  assert (exists c1 u, c :: rstrip t = u ++ [c1] /\ isspace c1 = false)
    as (c1 & u & Hu & Hc1).
  { rewrite <- rstrip_cons_nonspace by done. unfold rstrip.
    destruct (lstrip (rev (c :: t))) as [|c1 u] eqn:E1.
    - apply lstrip_nil in E1. rewrite forallb_forall in E1.
      assert (isspace c = true); [|congruence].
      apply E1. apply in_rev. rewrite rev_involutive. by left.
    - exists c1, (rev u). split; [done|]. by eapply lstrip_head. }
  exists c1. split; [done|]. split; [done|]. split; [|done].
  rewrite Hu, length_app. simpl.
  rewrite lookup_app_r by lia.
  by replace (length u + 1 - 1 - length u)%nat with 0%nat by lia.
Qed.

Lemma strip_strip s : strip (strip s) = strip s.
Proof.
  destruct (strip_ends s) as [->|(c0 & c1 & H0 & Hc0 & H1 & Hc1)]; [done|].
  by eapply strip_id.
Qed.

Lemma lstrip_suffix s : exists a, s = a ++ lstrip s.
Proof.
  induction s as [|c s [a IH]]; simpl; [by exists []|].
  destruct (isspace c); [|by exists []].
  exists (c :: a). simpl. by rewrite <- IH.
Qed.

(** Trimming keeps a contiguous part of the string. *)
Lemma strip_part s : exists a b, s = a ++ strip s ++ b.
Proof.
  unfold strip, rstrip.
  destruct (lstrip_suffix s) as [a Ha].
  destruct (lstrip_suffix (rev (lstrip s))) as [b Hb].
  exists a, (rev b). rewrite <- rev_app_distr, <- Hb, rev_involutive.
  exact Ha.
Qed.

Lemma len_strip_le s : len (strip s) <= len s.
Proof.
  destruct (strip_part s) as (a & b & H). apply (f_equal length) in H.
  rewrite !length_app in H. unfold len. lia.
Qed.

(** *** What every pass does *)

Lemma passes_all (P : Pass -> Prop) self txt source :
  (forall v, P (body self txt source v).1.1) ->
  forall fuel v p, In p (passes self txt source fuel v) -> P p.
Proof.
  intros HP fuel. induction fuel as [|fuel IH]; intros v p.
  - simpl. by destruct (start v <? len txt).
  - rewrite passes_S. destruct (start v <? len txt); [|done].
    specialize (HP v).
    destruct (body self txt source v) as [[q v'] [|]]; cbn [fst snd] in HP.
    + intros [<-|Hin]; [done|by eapply IH].
    + intros [<-|[]]. done.
Qed.

Lemma split_passes_all (P : Pass -> Prop) self fuel txt source :
  (forall v, P (body self (strip txt) source v).1.1) ->
  forall p, In p (split_passes self fuel txt source) -> P p.
Proof.
  intros HP p. unfold split_passes.
  destruct (bool_decide (strip txt = [])); [done|].
  by apply passes_all.
Qed.

Lemma len_slice_to_le s j : len (slice_to s j) <= len s.
Proof.
  unfold slice_to, slice, len. rewrite length_take, length_drop. lia.
Qed.

Lemma slice_to_part s j : exists b, s = slice_to s j ++ b.
Proof.
  unfold slice_to, slice.
  assert (clamp (len s) 0 = 0) as ->.
  { unfold clamp. simpl. pose proof (len_nonneg s). lia. }
  simpl. eexists. by rewrite take_drop.
Qed.

Lemma snap_prefix self w seps ct :
  snap self w seps = Some ct -> exists j, ct = slice_to w j.
Proof.
  induction seps as [|sep seps IH]; simpl; [done|].
  destruct (past_threshold self _); [|exact IH].
  intros [= <-]. eauto.
Qed.

(** The window of a pass, after snapping, is a contiguous part of the
    text and no longer than [chunk_size]. *)
Lemma body_window_part self txt source v :
  exists a b, txt = a ++ p_chunk_text (body self txt source v).1.1 ++ b.
Proof.
  unfold body. cbn [fst snd p_chunk_text].
  destruct (slice_part txt (start v)
              (Z.min (start v + chunk_size self) (len txt)))
    as (a & b & Hab).
  destruct (if _ <? _ then _ else None) as [ct|] eqn:E; cbn [from_option Datatypes.id].
  - destruct (_ <? _); [|done]. apply snap_prefix in E as [j ->].
    destruct (slice_to_part
                (slice txt (start v)
                   (Z.min (start v + chunk_size self) (len txt))) j)
      as [b' Hb'].
    exists a, (b' ++ b).
    rewrite (app_assoc (slice_to _ j) b' b), <- Hb'. exact Hab.
  - by exists a, b.
Qed.

Lemma len_window_le s i c :
  0 <= c -> len (slice s i (Z.min (i + c) (len s))) <= c.
Proof.
  intros Hc. unfold slice, clamp, len.
  rewrite length_take, length_drop.
  destruct (i <? 0) eqn:Ei;
    destruct (Z.min (i + c) (Z.of_nat (length s)) <? 0) eqn:Ej; lia.
Qed.

Lemma body_window_len self txt source v :
  0 <= chunk_size self ->
  len (p_chunk_text (body self txt source v).1.1) <= chunk_size self.
Proof.
  intros Hcs. unfold body. cbn [fst snd p_chunk_text].
  pose proof (len_window_le txt (start v) (chunk_size self) Hcs) as Hw.
  destruct (if _ <? _ then _ else None) as [ct|] eqn:E; cbn [from_option Datatypes.id];
    [|done].
  destruct (_ <? _); [|done]. apply snap_prefix in E as [j ->].
  pose proof (len_slice_to_le
                (slice txt (start v)
                   (Z.min (start v + chunk_size self) (len txt))) j).
  lia.
Qed.

Lemma body_appended self txt source v :
  p_appended (body self txt source v).1.1
  = negb (bool_decide (strip (p_chunk_text (body self txt source v).1.1)
                       = [])).
Proof. reflexivity. Qed.

(** *** The chunks returned *)

Lemma numbered_app source i ts us :
  numbered source i (ts ++ us)
  = numbered source i ts ++ numbered source (i + Z.of_nat (length ts)) us.
Proof.
  revert i. induction ts as [|t ts IH]; intros i; simpl.
  - by rewrite Z.add_0_r.
  - rewrite IH. do 3 f_equal. lia.
Qed.

Lemma body_numbered self txt source v base ts :
  chunks v = numbered source base ts ->
  chunk_id v = base + Z.of_nat (length ts) ->
  chunks (body self txt source v).1.2
  = numbered source base
             (ts ++ appended_texts [(body self txt source v).1.1])
  /\ chunk_id (body self txt source v).1.2
     = base + Z.of_nat
                (length (ts ++ appended_texts [(body self txt source v).1.1])).
Proof.
  intros Hc Hi. unfold appended_texts, body.
  cbn [fst snd chunks chunk_id p_appended p_chunk_text].
  destruct (negb (bool_decide (strip _ = []))) eqn:Ea.
  - rewrite filter_cons_True by done. cbn [filter map].
    rewrite numbered_app, <- Hc, <- Hi. rewrite length_app. simpl.
    split; [done|lia].
  - rewrite filter_cons_False by (simpl; congruence).
    cbn [filter map]. rewrite app_nil_r. done.
Qed.

Lemma while_numbered self txt source fuel v base ts cs :
  chunks v = numbered source base ts ->
  chunk_id v = base + Z.of_nat (length ts) ->
  while self txt source fuel v = Some cs ->
  cs = numbered source base
         (ts ++ appended_texts (passes self txt source fuel v)).
Proof.
  revert v ts. induction fuel as [|fuel IH]; intros v ts Hc Hi.
  - simpl. destruct (start v <? len txt); [done|]. intros [= <-].
    unfold appended_texts. simpl. by rewrite app_nil_r.
  - rewrite while_S, passes_S. destruct (start v <? len txt).
    2: { intros [= <-]. unfold appended_texts. simpl.
         by rewrite app_nil_r. }
    destruct (body_numbered self txt source v base ts Hc Hi) as [Hc' Hi'].
    destruct (body self txt source v) as [[q v'] [|]];
      cbn [fst snd] in Hc', Hi'.
    + intros H. rewrite (IH _ _ Hc' Hi' H). rewrite <- app_assoc.
      f_equal. f_equal. unfold appended_texts.
      change (q :: passes self txt source fuel v')
        with ([q] ++ passes self txt source fuel v').
      by rewrite filter_app, map_app.
    + intros [= <-]. done.
Qed.

(** The chunks in terms of the passes; used again below. *)
Lemma chunks_of_split_passes self fuel txt source cs :
  split_into_chunks self fuel txt source = Some cs ->
  cs = numbered source 0
         (appended_texts (split_passes self fuel txt source)).
Proof.
  unfold split_into_chunks, split_passes.
  destruct (bool_decide (strip txt = [])); [by intros [= <-]|].
  intros H. by apply (while_numbered _ _ _ _ init 0 []).
Qed.

(** X1.  The chunks [split_into_chunks] returns are the trimmed
    windows of the passes that appended one, in order, numbered
    0, 1, 2, ...: chunk number [i] has [chunk_index = i], the id
    [source ++ "_chunk_" ++ str(i)] and the given source label. *)
Theorem chunks_numbered_in_order self fuel txt source cs :
  split_into_chunks self fuel txt source = Some cs ->
  cs = numbered source 0
         (appended_texts (split_passes self fuel txt source)).
Proof. intros. eapply chunks_of_split_passes; eauto. Qed.

Lemma sentence_chunks_returned :
  split_into_chunks defaults 5 Examples.one_sentence_end []
  = Some sentence_chunks.
Proof. vm_compute. reflexivity. Qed.

Lemma chunks_numbered_in_order_witness :
  sentence_chunks
  = numbered [] 0
      (appended_texts (split_passes defaults 5 Examples.one_sentence_end [])).
Proof.
  exact (chunks_numbered_in_order defaults 5 Examples.one_sentence_end []
           sentence_chunks sentence_chunks_returned).
Defined.

Lemma numbered_In source i ts c :
  In c (numbered source i ts) ->
  In (text c) ts /\ DocumentProcessor.source c = source.
Proof.
  revert i. induction ts as [|t ts IH]; intros i; simpl; [done|].
  intros [<-|H]; [by split; [left|]|].
  destruct (IH _ H). by split; [right|].
Qed.

Lemma appended_texts_In ps t :
  In t (appended_texts ps) ->
  exists p, In p ps /\ p_appended p = true /\ t = strip (p_chunk_text p).
Proof.
  unfold appended_texts. rewrite in_map_iff. intros (p & <- & Hp).
  apply list_elem_of_In, list_elem_of_filter in Hp as [Ha Hp].
  exists p. by rewrite <- list_elem_of_In.
Qed.

(** Every chunk comes from a pass: its text is the trimmed window. *)
Lemma chunk_from_pass self fuel txt source cs c :
  split_into_chunks self fuel txt source = Some cs ->
  In c cs ->
  DocumentProcessor.source c = source
  /\ exists p, In p (split_passes self fuel txt source)
               /\ p_appended p = true
               /\ text c = strip (p_chunk_text p).
Proof.
  intros H Hc. rewrite (chunks_of_split_passes _ _ _ _ _ H) in Hc.
  apply numbered_In in Hc as [Ht Hs]. split; [done|].
  by apply appended_texts_In.
Qed.

(** X2.  No chunk is empty and no chunk starts or ends with
    whitespace: the text of every returned chunk is non-empty and is
    left unchanged by [strip]. *)
Theorem chunks_trimmed_and_not_empty self fuel txt source cs c :
  split_into_chunks self fuel txt source = Some cs ->
  In c cs ->
  text c <> [] /\ strip (text c) = text c.
Proof.
  intros H Hc.
  destruct (chunk_from_pass _ _ _ _ _ _ H Hc) as (_ & p & Hp & Ha & ->).
  split; [|apply strip_strip].
  revert Ha. pattern p. revert p Hp. apply split_passes_all. intros v.
  rewrite body_appended. intros Ha E. rewrite E in Ha.
  by rewrite bool_decide_eq_true_2 in Ha.
Qed.

Lemma chunks_trimmed_and_not_empty_witness :
  repeat 97%N 500 ++ [46%N] <> ([] : str)
  /\ strip (repeat 97%N 500 ++ [46%N]) = repeat 97%N 500 ++ [46%N].
Proof.
  refine (chunks_trimmed_and_not_empty defaults 5 Examples.one_sentence_end
            [] sentence_chunks
            {| id := lit "_chunk_0"; text := repeat 97%N 500 ++ [46%N];
               source := []; chunk_index := 0 |}
            sentence_chunks_returned _).
  left. reflexivity.
Defined.

(** X3.  Every chunk is a contiguous part of the text it was cut
    from. *)
Theorem chunk_occurs_in_text self fuel txt source cs c :
  split_into_chunks self fuel txt source = Some cs ->
  In c cs ->
  occurs (text c) txt.
Proof.
  intros H Hc.
  destruct (chunk_from_pass _ _ _ _ _ _ H Hc) as (_ & p & Hp & _ & ->).
  assert (occurs (strip (p_chunk_text p)) (strip txt)) as Ho.
  { revert p Hp. apply split_passes_all. intros v.
    destruct (body_window_part self (strip txt) source v) as (a & b & Hab).
    destruct (strip_part (p_chunk_text (body self (strip txt) source v).1.1))
      as (a' & b' & Hab').
    exists (a ++ a'), (b' ++ b). rewrite Hab at 1. rewrite Hab' at 1.
    by rewrite <- !app_assoc. }
  destruct (strip_part txt) as (a & b & Hab). rewrite Hab.
  by apply occurs_middle.
Qed.

Lemma chunk_occurs_in_text_witness :
  occurs (repeat 97%N 198 ++ [46; 32]%N ++ repeat 97%N 800)
         Examples.one_sentence_end.
Proof.
  refine (chunk_occurs_in_text defaults 5 Examples.one_sentence_end []
            sentence_chunks
            {| id := lit "_chunk_1";
               text := repeat 97%N 198 ++ [46; 32]%N ++ repeat 97%N 800;
               source := []; chunk_index := 1 |}
            sentence_chunks_returned _).
  right. left. reflexivity.
Defined.

(** X4.  With a chunk size that is not negative, no chunk is longer
    than [chunk_size]. *)
Theorem chunk_no_longer_than_chunk_size self fuel txt source cs c :
  0 <= chunk_size self ->
  split_into_chunks self fuel txt source = Some cs ->
  In c cs ->
  len (text c) <= chunk_size self.
Proof.
  intros Hcs H Hc.
  destruct (chunk_from_pass _ _ _ _ _ _ H Hc) as (_ & p & Hp & _ & ->).
  assert (len (p_chunk_text p) <= chunk_size self).
  { revert p Hp. apply split_passes_all. intros v.
    by apply body_window_len. }
  pose proof (len_strip_le (p_chunk_text p)). lia.
Qed.

Lemma chunk_no_longer_than_chunk_size_witness :
  len (repeat 97%N 198 ++ [46; 32]%N ++ repeat 97%N 800)
  <= chunk_size defaults.
Proof.
  refine (chunk_no_longer_than_chunk_size defaults 5
            Examples.one_sentence_end [] sentence_chunks
            {| id := lit "_chunk_1";
               text := repeat 97%N 198 ++ [46; 32]%N ++ repeat 97%N 800;
               source := []; chunk_index := 1 |}
            _ sentence_chunks_returned _).
  - done.
  - right. left. reflexivity.
Defined.

(** A blank text never enters the loop. *)
Lemma split_blank self fuel txt source :
  forallb isspace txt = true ->
  split_into_chunks self fuel txt source = Some []
  /\ split_passes self fuel txt source = [].
Proof.
  intros H. apply strip_nil in H.
  unfold split_into_chunks, split_passes.
  by rewrite (bool_decide_eq_true_2 _ H).
Qed.

(** X5.  A text that is empty or all whitespace gives no chunks, and
    the loop is not entered. *)
Theorem blank_text_gives_no_chunks self fuel txt source :
  forallb isspace txt = true ->
  split_into_chunks self fuel txt source = Some []
  /\ split_passes self fuel txt source = [].
Proof. intros. eapply split_blank; eauto. Qed.

Lemma blank_text_gives_no_chunks_witness :
  split_into_chunks defaults 0 [32; 10; 9; 160]%N [] = Some []
  /\ split_passes defaults 0 [32; 10; 9; 160]%N [] = [].
Proof.
  apply (blank_text_gives_no_chunks defaults 0 [32; 10; 9; 160]%N []).
  reflexivity.
Defined.

(** *** Termination and tiling under a small overlap *)

Lemma while_more_fuel self txt source (n m : nat) :
  (n <= m)%nat ->
  forall v cs,
    while self txt source n v = Some cs ->
    while self txt source m v = Some cs.
Proof.
  revert m. induction n as [|n IH]; intros m Hnm v cs.
  - cbn [while]. destruct m as [|m]; [done|]. rewrite while_S.
    by destruct (start v <? len txt).
  - destruct m as [|m]; [lia|]. rewrite !while_S.
    destruct (start v <? len txt); [|done].
    destruct (body self txt source v) as [[q v'] [|]]; [|done].
    apply IH. lia.
Qed.

(** X6.  With [0 <= chunk_overlap < chunk_size] and
    [chunk_overlap <= 0.4 * chunk_size] (the defaults 1000 and 200
    among them), [split_into_chunks] returns for every text: the loop
    ends within as many passes as the stripped text has characters,
    and its result is the same for every larger bound. *)
Theorem split_into_chunks_returns self txt source :
  0 <= chunk_overlap self ->
  5 * chunk_overlap self <= 2 * chunk_size self ->
  chunk_overlap self < chunk_size self ->
  exists cs,
    forall fuel, (length (strip txt) <= fuel)%nat ->
                 split_into_chunks self fuel txt source = Some cs.
Proof.
  intros Hco Hfifth Hlt.
  destruct (split_into_chunks_terminates_small_overlap
              self txt source Hco Hfifth Hlt) as [cs Hcs].
  exists cs. intros fuel Hfuel. revert Hcs. unfold split_into_chunks.
  destruct (bool_decide (strip txt = [])); [done|].
  by apply while_more_fuel.
Qed.

Lemma split_into_chunks_returns_witness :
  exists cs,
    forall fuel, (length (strip Examples.one_sentence_end) <= fuel)%nat ->
                 split_into_chunks defaults fuel
                                   Examples.one_sentence_end [] = Some cs.
Proof.
  apply (split_into_chunks_returns defaults
           Examples.one_sentence_end []); cbn; lia.
Defined.

Lemma clamp_id n i : 0 <= i <= n -> clamp n i = i.
Proof. intros H. unfold clamp. destruct (i <? 0) eqn:E; lia. Qed.

Lemma slice_to_slice s i j k :
  0 <= i -> i <= j -> j <= len s -> 0 <= k <= j - i ->
  slice_to (slice s i j) k = slice s i (i + k).
Proof.
  intros Hi Hij Hj Hk. unfold slice_to. unfold slice at 1.
  rewrite (len_slice s i j) by lia.
  rewrite (clamp_id (j - i) 0), (clamp_id (j - i) k) by lia.
  unfold slice. rewrite !clamp_id by lia.
  change (Z.to_nat 0) with 0%nat. rewrite drop_0, take_take.
  f_equal. lia.
Qed.

(** With a chunk size that is not negative, a snapped window is a
    prefix of the window, of a length past the threshold. *)
Lemma snap_cut self w seps ct :
  0 <= chunk_size self ->
  snap self w seps = Some ct ->
  exists k, 0 < k <= len w /\ ct = slice_to w k /\ len ct = k.
Proof.
  intros Hcs. induction seps as [|sep seps IH]; simpl; [done|].
  unfold past_threshold.
  destruct (2 * chunk_size self <? 5 * rfind w sep) eqn:E; [|exact IH].
  intros [= <-]. apply Z.ltb_lt in E. unfold rfind in *.
  destruct (rindex sep w) as [i|] eqn:Ei; [|lia].
  apply rindex_Some_bound in Ei.
  assert (0 < Z.of_nat i + len sep <= len w) as Hk by (unfold len; lia).
  exists (Z.of_nat i + len sep).
  split; [done|]. split; [done|].
  unfold slice_to. rewrite len_slice; lia.
Qed.

(** What one pass does when the overlap is small and [start] lies
    inside the text. *)
Lemma body_tile self txt source v :
  0 <= chunk_overlap self ->
  5 * chunk_overlap self <= 2 * chunk_size self ->
  chunk_overlap self < chunk_size self ->
  0 <= start v < len txt ->
  p_start (body self txt source v).1.1 = start v
  /\ start v < p_end (body self txt source v).1.1 <= len txt
  /\ p_chunk_text (body self txt source v).1.1
     = slice txt (start v) (p_end (body self txt source v).1.1)
  /\ start (body self txt source v).1.2
     = p_end (body self txt source v).1.1 - chunk_overlap self
  /\ ((body self txt source v).2 = Break ->
      p_end (body self txt source v).1.1 = len txt).
Proof.
  intros Hco Hfifth Hlt Hstart. unfold body.
  cbn [fst snd start p_start p_end p_chunk_text].
  set (end0 := Z.min (start v + chunk_size self) (len txt)).
  assert (start v < end0 <= len txt) as He0 by (unfold end0; lia).
  destruct (end0 <? len txt) eqn:E.
  - destruct (snap self (slice txt (start v) end0) separators)
      as [ct|] eqn:Es; cbn [from_option Datatypes.id].
    + apply snap_cut in Es as (k & Hk & -> & Hlen); [|lia].
      rewrite (len_slice txt (start v) end0) in Hk by lia.
      rewrite Hlen. rewrite slice_to_slice by lia.
      split; [done|]. split; [lia|]. split; [done|]. split; [done|].
      destruct (len txt <=? start v + k - chunk_overlap self) eqn:E1.
      * intros _. lia.
      * destruct (start v + k =? len txt) eqn:E2; [lia|done].
    + split; [done|]. split; [lia|]. split; [done|]. split; [done|].
      destruct (len txt <=? end0 - chunk_overlap self) eqn:E1.
      * intros _. lia.
      * destruct (end0 =? len txt) eqn:E2; [lia|done].
  - cbn [from_option Datatypes.id]. apply Z.ltb_ge in E.
    split; [done|]. split; [lia|]. split; [done|]. split; [done|].
    intros _. lia.
Qed.

Lemma passes_tile self txt source :
  0 <= chunk_overlap self ->
  5 * chunk_overlap self <= 2 * chunk_size self ->
  chunk_overlap self < chunk_size self ->
  forall (n : nat) v,
    0 <= start v < len txt ->
    len txt - start v <= Z.of_nat n ->
    tiles txt (chunk_overlap self) (start v) (passes self txt source n v).
Proof.
  intros Hco Hfifth Hlt n. induction n as [|n IH]; intros v Hs Hn; [lia|].
  rewrite passes_S. rewrite (proj2 (Z.ltb_lt _ _)) by lia.
  pose proof (body_tile self txt source v Hco Hfifth Hlt Hs)
    as (H1 & H2 & H3 & H4 & H5).
  pose proof (body_advances self txt source v Hco Hfifth Hlt Hs) as Hadv.
  destruct (body self txt source v) as [[q v'] [|]];
    cbn [fst snd] in H1, H2, H3, H4, H5, Hadv.
  - specialize (Hadv eq_refl).
    assert (tiles txt (chunk_overlap self) (start v')
                  (passes self txt source n v')) as Ht
      by (apply IH; lia).
    cbn [tiles]. rewrite H1 at 1. split; [done|]. split; [lia|].
    split; [lia|]. split; [by rewrite H1|].
    destruct (passes self txt source n v') as [|q' ps'] eqn:Eps; [done|].
    by rewrite <- H4.
  - cbn [tiles]. rewrite H1 at 1. split; [done|]. split; [lia|].
    split; [lia|]. split; [by rewrite H1|]. by apply H5.
Qed.

(** X7.  With [0 <= chunk_overlap < chunk_size] and
    [chunk_overlap <= 0.4 * chunk_size], the windows of the passes
    tile the stripped text: the first starts at 0, each is the
    non-empty part [[start, end)] of the text, each next one starts
    exactly [chunk_overlap] before the end of the one before, and the
    last one ends at the end of the text.  No character is skipped. *)
Theorem windows_tile_the_text self txt source :
  0 <= chunk_overlap self ->
  5 * chunk_overlap self <= 2 * chunk_size self ->
  chunk_overlap self < chunk_size self ->
  strip txt <> [] ->
  tiles (strip txt) (chunk_overlap self) 0
        (split_passes self (length (strip txt)) txt source).
Proof.
  intros Hco Hfifth Hlt Hne. unfold split_passes.
  rewrite (bool_decide_eq_false_2 _ Hne).
  apply (passes_tile self (strip txt) source Hco Hfifth Hlt _ init).
  - cbn. unfold len. destruct (strip txt); [done|]. simpl. lia.
  - cbn. unfold len. lia.
Qed.

Lemma windows_tile_the_text_witness :
  tiles (strip Examples.one_sentence_end) (chunk_overlap defaults) 0
        (split_passes defaults (length (strip Examples.one_sentence_end))
                      Examples.one_sentence_end []).
Proof.
  apply (windows_tile_the_text defaults Examples.one_sentence_end []).
  - cbn. lia.
  - cbn. lia.
  - cbn. lia.
  - vm_compute. discriminate.
Defined.

End ChunkerMore.

(** ** More about the retry wrapper *)

Module RetryMore.
Import PyStr rag_engine RetryProps.

Section Exhaustion.
Context {O : Type}.
Variable env : Env.
Variable c : Call.
Variable m : nat.
Variable base_delay : Z.

Lemma retry_loop_exhausts (n : nat) :
  forall (a : nat) last (s : Store O) e_last,
    (a + S n = S m)%nat ->
    0 <= base_delay ->
    (forall i, (i <= n)%nat ->
               exists e, respond env (calls s ++ repeat c i) c = Raise e
                         /\ is_rate_limit e = true) ->
    respond env (calls s ++ repeat c n) c = Raise e_last ->
    retry_loop (call env c) (Z.of_nat m) base_delay
               (map Z.of_nat (seq a (S n))) last s
    = (Raise e_last,
       {| self := self s;
          calls := calls s ++ repeat c (S n);
          slept := slept s
                   ++ map (fun i => base_delay * 2 ^ Z.of_nat (a + i))
                          (seq 0 n) |}).
Proof.
  induction n as [|n IH]; intros a last s e_last Ha Hb Hfail Hlast.
  - cbn [seq map repeat]. rewrite app_nil_r in Hlast.
    rewrite (retry_loop_step_raise env c _ _ s e_last); [|done|].
    + by rewrite app_nil_r.
    + rewrite andb_false_iff. right. apply Z.ltb_ge. lia.
  - cbn [seq map].
    destruct (Hfail 0%nat) as (e & He & Hrl); [lia|].
    cbn [repeat] in He. rewrite app_nil_r in He.
    rewrite (retry_loop_step_retry env c _ _ s e); [|done|done|lia|].
    2: { apply Z.mul_nonneg_nonneg; [done|]. apply Z.pow_nonneg. lia. }
    rewrite (IH (S a) (Some e) _ e_last); cbn [self calls slept].
    + f_equal. f_equal.
      * by rewrite <- app_assoc.
      * rewrite <- app_assoc. f_equal. cbn [seq map].
        rewrite Nat.add_0_r. f_equal.
        rewrite <- seq_shift, map_map. apply map_ext. intros i.
        do 3 f_equal. lia.
    + lia.
    + done.
    + intros i Hi. destruct (Hfail (S i)) as (e' & He' & Hrl'); [lia|].
      exists e'. split; [|done]. rewrite <- app_assoc. exact He'.
    + rewrite <- app_assoc. exact Hlast.
Qed.

(** The run of [_retry_call] when every attempt is rate limited. *)
Lemma retry_call_exhausted (s : Store O) e_last :
  0 <= base_delay ->
  (forall i, (i <= m)%nat ->
             exists e, respond env (calls s ++ repeat c i) c = Raise e
                       /\ is_rate_limit e = true) ->
  respond env (calls s ++ repeat c m) c = Raise e_last ->
  _retry_call (call env c) (Z.of_nat m) base_delay s
  = (Raise e_last,
     {| self := self s;
        calls := calls s ++ repeat c (S m);
        slept := slept s
                 ++ map (fun i => base_delay * 2 ^ i)
                        (range (Z.of_nat m)) |}).
Proof.
  intros Hb Hfail Hlast. unfold _retry_call.
  replace (range (Z.of_nat m + 1)) with (map Z.of_nat (seq 0 (S m))).
  2: { unfold range. f_equal. f_equal. lia. }
  rewrite (retry_loop_exhausts m 0 None s e_last); try done.
  rewrite range_of_nat, map_map. done.
Qed.

(** X8.  When the operation raises a rate-limit error on every one of
    its first [max_retries + 1] invocations (with [max_retries = m]
    and a delay that is not negative), [_retry_call] invokes it
    exactly [m + 1] times, sleeps [base_delay * 2^0], ...,
    [base_delay * 2^(m-1)] in between (no sleep after the last
    failure), and raises the error of the last invocation. *)
Theorem retry_call_gives_up (s : Store O) e_last :
  0 <= base_delay ->
  (forall i, (i <= m)%nat ->
             exists e, respond env (calls s ++ repeat c i) c = Raise e
                       /\ is_rate_limit e = true) ->
  respond env (calls s ++ repeat c m) c = Raise e_last ->
  _retry_call (call env c) (Z.of_nat m) base_delay s
  = (Raise e_last,
     {| self := self s;
        calls := calls s ++ repeat c (S m);
        slept := slept s
                 ++ map (fun i => base_delay * 2 ^ i)
                        (range (Z.of_nat m)) |}).
Proof. intros. eapply retry_call_exhausted; eauto. Qed.

End Exhaustion.

Lemma retry_call_gives_up_witness :
  let c := generate_content Examples.sample_image in
  _retry_call (call MoreExamples.always_rate_limited c)
              MAX_RETRIES RETRY_BASE_DELAY (Examples.at_start tt)
  = (Raise (ServiceError (lit "429 Too Many Requests")),
     {| self := tt; calls := [c; c; c; c]; slept := [5; 10; 20] |}).
Proof.
  intros c.
  refine (retry_call_gives_up MoreExamples.always_rate_limited c 3
            RETRY_BASE_DELAY (Examples.at_start tt)
            (ServiceError (lit "429 Too Many Requests")) _ _ _).
  - unfold RETRY_BASE_DELAY. lia.
  - intros i Hi. exists (ServiceError (lit "429 Too Many Requests")).
    split; vm_compute; reflexivity.
  - vm_compute. reflexivity.
Defined.

(** X9.  With a negative [max_retries] the operation is never
    invoked: [_retry_call] raises the [TypeError] of [raise None] and
    the state is untouched. *)
Theorem retry_call_negative_retries
    {O A} (fn : M O A) max_retries base_delay (s : Store O) :
  max_retries < 0 ->
  _retry_call fn max_retries base_delay s
  = (Raise (TypeError (lit "exceptions must derive from BaseException")),
     s).
Proof.
  intros H. unfold _retry_call, range.
  replace (Z.to_nat (max_retries + 1)) with 0%nat by lia. reflexivity.
Qed.

Lemma retry_call_negative_retries_witness :
  _retry_call
    (call Examples.all_fine (generate_content Examples.sample_image))
    (-1) 5 (Examples.at_start tt)
  = (Raise (TypeError (lit "exceptions must derive from BaseException")),
     Examples.at_start tt).
Proof.
  apply (retry_call_negative_retries
           (call Examples.all_fine (generate_content Examples.sample_image))).
  lia.
Defined.

End RetryMore.

(** ** More about the knowledge index manager *)

Module IndexMore.
Import PyStr PyStrFacts rag_engine rag_engine.YandexRAG IndexProps.

(** *** The error hints *)

Lemma len_slice_to_bound s j : 0 <= j -> len (slice_to s j) <= j.
Proof.
  intros Hj. unfold slice_to, slice, clamp, len. simpl.
  destruct (j <? 0) eqn:E; [lia|].
  rewrite length_take, length_drop. lia.
Qed.

Lemma hint_loop_cases msg hints :
  ((forall code hint, In (code, hint) hints -> contains code msg = false)
   /\ hint_loop msg hints = slice_to msg 300)
  \/ exists before code hint after,
       hints = before ++ (code, hint) :: after
       /\ contains code msg = true
       /\ (forall c h, In (c, h) before -> contains c msg = false)
       /\ hint_loop msg hints
          = hint ++ nl ++ nl ++ lit "Оригинал: " ++ slice_to msg 200.
Proof.
  induction hints as [|[code hint] hints IH]; cbn [hint_loop].
  - left. by split.
  - destruct (contains code msg) eqn:E.
    + right. exists [], code, hint, hints. by repeat split.
    + destruct IH as [[Hno Heq]|(before & c & h & after & -> & Hc & Hb & Heq)].
      * left. split; [|done]. intros c h [[= <- <-]|Hin]; [done|].
        by eapply Hno.
      * right. exists ((code, hint) :: before), c, h, after.
        split; [done|]. split; [done|]. split; [|done].
        intros c' h' [[= <- <-]|Hin]; [done|]. by eapply Hb.
Qed.

(** X10.  [_parse_grpc_error] gives either the first 300 characters
    of the message, when none of the five known status codes occurs
    in it, or the hint of the first known code (in the order
    PERMISSION_DENIED, UNAUTHENTICATED, NOT_FOUND, INVALID_ARGUMENT,
    RESOURCE_EXHAUSTED) that occurs, followed by the first 200
    characters of the message. *)
Theorem parse_grpc_error_cases e :
  ((forall code hint,
       In (code, hint) status_hints ->
       contains code (str_of_exn e) = false)
   /\ _parse_grpc_error e = slice_to (str_of_exn e) 300
   /\ len (_parse_grpc_error e) <= 300)
  \/ exists before code hint after,
       status_hints = before ++ (code, hint) :: after
       /\ contains code (str_of_exn e) = true
       /\ (forall c h, In (c, h) before ->
                       contains c (str_of_exn e) = false)
       /\ _parse_grpc_error e
          = hint ++ nl ++ nl ++ lit "Оригинал: "
            ++ slice_to (str_of_exn e) 200
       /\ len (slice_to (str_of_exn e) 200) <= 200.
Proof.
  unfold _parse_grpc_error.
  destruct (hint_loop_cases (str_of_exn e) status_hints)
    as [[Hno Heq]|(before & c & h & after & Hs & Hc & Hb & Heq)].
  - left. split; [done|]. split; [done|]. rewrite Heq.
    by apply len_slice_to_bound.
  - right. exists before, c, h, after. repeat split; try done.
    by apply len_slice_to_bound.
Qed.

(** *** [_ensure_assistant] *)

(** With an assistant in place and the flag not set,
    [_ensure_assistant] does nothing: no call, no change. *)
Lemma ensure_assistant_keeps_fresh_assistant env (s : Store YandexRAG.t) a :
  _assistant (self s) = Some a ->
  _index_dirty (self s) = false ->
  _ensure_assistant env s = (Ok tt, s).
Proof.
  intros Ha Hd. unfold _ensure_assistant, bind, get.
  by rewrite Ha, Hd.
Qed.

(** The part of [_ensure_assistant] after the old assistant is gone. *)
Lemma ensure_build env si (s1 : Store YandexRAG.t) r s' :
  (let! tools :=
     match si with
     | Some i => let! tool := call env (tools_search_index i) in ret [tool]
     | None => ret []
     end in
   let! a := call env (assistants_create tools) in
   do! modify (set_assistant (Some a)) in
   modify (set_index_dirty false)) s1 = (r, s') ->
  (exists l, calls s' = calls s1 ++ l)
  /\ _search_index (self s') = _search_index (self s1)
  /\ _files (self s') = _files (self s1)
  /\ match r with
     | Ok _ => is_Some (_assistant (self s'))
               /\ _index_dirty (self s') = false
     | Raise _ => _assistant (self s') = _assistant (self s1)
                  /\ _index_dirty (self s') = _index_dirty (self s1)
     end.
Proof.
  unfold bind, call, ret, modify. destruct si as [i|]; cbn [self calls].
  - destruct (respond env (calls s1) (tools_search_index i)) as [tool|e].
    + cbn [self calls].
      destruct (respond env _ (assistants_create [tool])) as [a|e];
        intros [= <- <-]; cbn; rewrite <- ?app_assoc; eauto 10.
    + intros [= <- <-]; cbn; eauto 10.
  - destruct (respond env (calls s1) (assistants_create [])) as [a|e];
      intros [= <- <-]; cbn; eauto 10.
Qed.

(** What [_ensure_assistant] does to the manager, for any outcome. *)
Lemma ensure_assistant_spec env (s s' : Store YandexRAG.t) r :
  _ensure_assistant env s = (r, s') ->
  match r with
  | Ok _ => is_Some (_assistant (self s'))
            /\ _index_dirty (self s') = false
  | Raise _ => _index_dirty (self s') = _index_dirty (self s)
  end
  /\ _search_index (self s') = _search_index (self s)
  /\ _files (self s') = _files (self s)
  /\ (forall a,
         _assistant (self s) = Some a ->
         _index_dirty (self s) = true ->
         (exists l, calls s' = calls s ++ assistant_delete a :: l)
         /\ (forall e, r = Raise e -> _assistant (self s') = None)).
Proof.
  unfold _ensure_assistant. unfold bind at 1. unfold get at 1.
  destruct (_assistant (self s)) as [a|] eqn:Ha;
    destruct (_index_dirty (self s)) eqn:Hd; cbn [andb negb].
  - (* an assistant, flag set: discard, then build *)
    rewrite bool_decide_eq_true_2 by eauto. cbn [andb].
    unfold bind at 1. unfold bind at 1. unfold best_effort, try_except.
    unfold call at 1. unfold ret at 1. unfold modify at 1.
    set (s1 := {| self := set_assistant None (self s);
                  calls := calls s ++ [assistant_delete a];
                  slept := slept s |}).
    destruct (respond env (calls s) (assistant_delete a)) as [[]|e0];
      cbn [self calls slept]; fold s1; intros H;
      apply ensure_build in H as ((l & Hl) & Hsi & Hf & Hr);
      (split; [destruct r; [done|by destruct Hr as [_ ->]]|]);
      (split; [done|]); (split; [done|]);
      intros a' [= <-] _;
      (split; [exists l; rewrite Hl; cbn; by rewrite <- app_assoc|]);
      intros e ->; by destruct Hr as [-> _].
  - (* an assistant, flag clear: nothing to do *)
    rewrite bool_decide_eq_true_2 by eauto. cbn [andb].
    intros [= <- <-]. rewrite Ha, Hd. split; [eauto|]. done.
  - (* no assistant, flag set *)
    rewrite bool_decide_eq_false_2 by (by intros [? ?]). cbn [andb].
    unfold bind at 1. unfold ret at 1. intros H.
    apply ensure_build in H as ((l & Hl) & Hsi & Hf & Hr).
    split; [destruct r; [done|by destruct Hr as [_ ->]]|].
    split; [done|]. split; [done|]. intros a' Ha'. done.
  - (* no assistant, flag clear *)
    rewrite bool_decide_eq_false_2 by (by intros [? ?]). cbn [andb].
    unfold bind at 1. unfold ret at 1. intros H.
    apply ensure_build in H as ((l & Hl) & Hsi & Hf & Hr).
    split; [destruct r; [done|by destruct Hr as [_ ->]]|].
    split; [done|]. split; [done|]. intros a' Ha'. done.
Qed.



(** X12.  [_ensure_assistant] is idempotent: once it has returned,
    calling it again makes no call and changes nothing (the assistant
    is reused until the flag is set again). *)
Theorem ensure_assistant_idempotent env (s s1 : Store YandexRAG.t) :
  _ensure_assistant env s = (Ok tt, s1) ->
  _ensure_assistant env s1 = (Ok tt, s1).
Proof.
  intros H. apply ensure_assistant_spec in H as ([[a Ha] Hd] & _).
  by eapply ensure_assistant_keeps_fresh_assistant.
Qed.

Lemma ensure_assistant_idempotent_witness :
  let s1 :=
    {| self := set_index_dirty false (set_assistant (Some 32%N)
                                        MoreExamples.stale_yandex);
       calls := [assistant_delete 32%N; tools_search_index 22%N;
                 assistants_create [31%N]];
       slept := [] |} in
  _ensure_assistant Examples.all_fine s1 = (Ok tt, s1).
Proof.
  intros s1.
  refine (ensure_assistant_idempotent Examples.all_fine
            (Examples.at_start MoreExamples.stale_yandex) s1 _).
  vm_compute. reflexivity.
Defined.

(** *** The dictionary of tracked files *)

Lemma dict_get_set_ne d k k' v :
  k <> k' -> PyDict.get (PyDict.set d k v) k' = PyDict.get d k'.
Proof.
  intros Hne. induction d as [|[k0 v0] d IH]; simpl.
  - by rewrite bool_decide_eq_false_2.
  - destruct (bool_decide (k0 = k)) eqn:E; simpl; [|by rewrite IH].
    apply bool_decide_eq_true in E as ->.
    by rewrite bool_decide_eq_false_2.
Qed.

Lemma dict_len_set d k v :
  PyDict.len (PyDict.set d k v)
  = match PyDict.get d k with
    | Some _ => PyDict.len d
    | None => PyDict.len d + 1
    end.
Proof.
  unfold PyDict.len. induction d as [|[k0 v0] d IH]; simpl; [done|].
  destruct (bool_decide (k0 = k)); simpl; [done|].
  destruct (PyDict.get d k); lia.
Qed.

Lemma dict_get_None d k : PyDict.get d k = None <-> ~ In k (map fst d).
Proof.
  induction d as [|[k0 v0] d IH]; simpl; [tauto|].
  destruct (bool_decide (k0 = k)) eqn:E.
  - apply bool_decide_eq_true in E. split; [done|]. tauto.
  - apply bool_decide_eq_false in E. rewrite IH. tauto.
Qed.

Lemma dict_remove_absent d k : PyDict.get d k = None -> PyDict.remove d k = d.
Proof.
  induction d as [|[k0 v0] d IH]; simpl; [done|].
  destruct (bool_decide (k0 = k)); [done|]. intros H. by rewrite IH.
Qed.

Lemma dict_get_remove_ne d k k' :
  k <> k' -> PyDict.get (PyDict.remove d k) k' = PyDict.get d k'.
Proof.
  intros Hne. induction d as [|[k0 v0] d IH]; simpl; [done|].
  destruct (bool_decide (k0 = k)) eqn:E; simpl.
  - apply bool_decide_eq_true in E as ->.
    by rewrite bool_decide_eq_false_2.
  - by rewrite IH.
Qed.

Lemma dict_get_remove d k :
  NoDup (map fst d) -> PyDict.get (PyDict.remove d k) k = None.
Proof.
  induction d as [|[k0 v0] d IH]; simpl; [done|].
  intros Hnd. apply NoDup_cons in Hnd as [Hnotin Hnd].
  destruct (bool_decide (k0 = k)) eqn:E; simpl.
  - apply bool_decide_eq_true in E as ->. apply dict_get_None.
    by rewrite <- list_elem_of_In.
  - rewrite E. by apply IH.
Qed.

Lemma dict_keys_remove d k x :
  In x (map fst (PyDict.remove d k)) -> In x (map fst d).
Proof.
  induction d as [|[k0 v0] d IH]; simpl; [done|].
  destruct (bool_decide (k0 = k)); simpl; [tauto|].
  intros [->|H]; [by left|right; by apply IH].
Qed.

Lemma dict_NoDup_remove d k :
  NoDup (map fst d) -> NoDup (map fst (PyDict.remove d k)).
Proof.
  induction d as [|[k0 v0] d IH]; simpl; [done|].
  intros Hnd. apply NoDup_cons in Hnd as [Hnotin Hnd].
  destruct (bool_decide (k0 = k)); simpl; [done|].
  apply NoDup_cons. split; [|by apply IH].
  rewrite list_elem_of_In. intros H. apply dict_keys_remove in H.
  by rewrite <- list_elem_of_In in H.
Qed.

(** *** [add_file] *)

(** X13.  When the upload raises [e], [add_file] raises the upload
    [RuntimeError] (message with [_parse_grpc_error e], cause [e]);
    the upload was the only call, and the manager is unchanged:
    nothing is recorded for the file. *)
Theorem add_file_upload_failure env (s : Store YandexRAG.t) file_path e :
  respond env (calls s) (files_upload file_path (path_name env file_path))
  = Raise e ->
  add_file env file_path s
  = (Raise (RuntimeError
              (lit "Ошибка загрузки файла '" ++ path_name env file_path
               ++ lit "':" ++ nl ++ _parse_grpc_error e) (Some e)),
     {| self := self s;
        calls := calls s
                 ++ [files_upload file_path (path_name env file_path)];
        slept := slept s |}).
Proof.
  intros H. unfold add_file. unfold bind at 1. unfold try_except at 1.
  rewrite call_spec, H. reflexivity.
Qed.

Lemma add_file_upload_failure_witness :
  let e := ServiceError (lit "PERMISSION_DENIED: no role") in
  add_file MoreExamples.upload_refused (lit "docs/law.txt")
           (Examples.at_start Examples.settled_yandex)
  = (Raise (RuntimeError
              (lit "Ошибка загрузки файла '" ++ lit "law.txt"
               ++ lit "':" ++ nl ++ _parse_grpc_error e) (Some e)),
     {| self := Examples.settled_yandex;
        calls := [files_upload (lit "docs/law.txt") (lit "law.txt")];
        slept := [] |}).
Proof.
  intros e.
  refine (add_file_upload_failure MoreExamples.upload_refused
            (Examples.at_start Examples.settled_yandex)
            (lit "docs/law.txt") e _).
  vm_compute. reflexivity.
Defined.

(** The state after an [add_file] that returned. *)
Lemma add_file_ok_spec env (s s' : Store YandexRAG.t) file_path name :
  add_file env file_path s = (Ok name, s') ->
  name = path_name env file_path
  /\ (exists yc_file,
         respond env (calls s) (files_upload file_path name) = Ok yc_file
         /\ PyDict.get (_files (self s')) name = Some (file_id yc_file))
  /\ (forall other, name <> other ->
         PyDict.get (_files (self s')) other
         = PyDict.get (_files (self s)) other)
  /\ document_count (self s')
     = match PyDict.get (_files (self s)) name with
       | Some _ => document_count (self s)
       | None => document_count (self s) + 1
       end
  /\ is_Some (_search_index (self s'))
  /\ _assistant (self s') = _assistant (self s).
Proof.
  unfold add_file, index_file, bind, try_except, call, get, modify,
    raise, ret, document_count.
  simpl.
  destruct (respond env (calls s) (files_upload _ _)) as [f|e] eqn:Hup;
    [|done].
  simpl. destruct (_search_index (self s)) as [si|] eqn:Hsi.
  - destruct (respond env _ (add_files_deferred si f)) as [op|e]; [|done].
    simpl. destruct (respond env _ (add_wait op)) as [[]|e]; [|done].
    intros [= <- <-]. simpl. rewrite Hsi.
    split; [done|]. split; [exists f; split; [exact Hup|apply dict_get_set]|].
    split; [intros other Hne; by apply dict_get_set_ne|].
    split; [apply dict_len_set|]. split; [eauto|done].
  - destruct (respond env _ (search_indexes_create_deferred f))
      as [op|e]; [|done].
    simpl. destruct (respond env _ (create_wait op)) as [si|e]; [|done].
    intros [= <- <-]. simpl.
    split; [done|]. split; [exists f; split; [exact Hup|apply dict_get_set]|].
    split; [intros other Hne; by apply dict_get_set_ne|].
    split; [apply dict_len_set|]. split; [eauto|done].
Qed.

(** X14.  When [add_file] returns, it returns [Path(file_path).name];
    the upload returned a file whose id is now recorded under that
    name; every other name is mapped as before; the number of tracked
    documents grew by one if the name was new and is unchanged if the
    name was tracked already (its old handle is overwritten); an index
    exists; and the assistant was not touched. *)
Theorem add_file_success env (s s' : Store YandexRAG.t) file_path name :
  add_file env file_path s = (Ok name, s') ->
  name = path_name env file_path
  /\ (exists yc_file,
         respond env (calls s) (files_upload file_path name) = Ok yc_file
         /\ PyDict.get (_files (self s')) name = Some (file_id yc_file))
  /\ (forall other, name <> other ->
         PyDict.get (_files (self s')) other
         = PyDict.get (_files (self s)) other)
  /\ document_count (self s')
     = match PyDict.get (_files (self s)) name with
       | Some _ => document_count (self s)
       | None => document_count (self s) + 1
       end
  /\ is_Some (_search_index (self s'))
  /\ _assistant (self s') = _assistant (self s).
Proof. intros. eapply add_file_ok_spec; eauto. Qed.

Lemma add_file_success_witness :
  let s := Examples.at_start Examples.settled_yandex in
  let s' := (add_file Examples.all_fine (lit "docs/law.txt") s).2 in
  PyDict.get (_files (self s')) (lit "law.txt") = Some (lit "file-1")
  /\ document_count (self s') = 1.
Proof.
  intros s s'.
  destruct (add_file_success Examples.all_fine s s' (lit "docs/law.txt")
              (lit "law.txt")) as (_ & (f & Hf & Hget) & _ & Hn & _).
  - vm_compute. reflexivity.
  - split; [|exact Hn].
    rewrite Hget. f_equal.
    assert (Ok f = Ok {| file_id := lit "file-1" |}) as [= ->];
      [by rewrite <- Hf|done].
Defined.

(** X15.  When an index exists, [add_file] never creates another one:
    whatever the outcome, the same index is kept and none of the
    calls made is an index creation. *)
Theorem add_file_keeps_single_index
    env (s s' : Store YandexRAG.t) file_path si r :
  _search_index (self s) = Some si ->
  add_file env file_path s = (r, s') ->
  _search_index (self s') = Some si
  /\ Forall (fun c => RAGEngineDocs.is_index_creation c = false)
            (new_calls s s').
Proof.
  intros Hsi.
  unfold add_file, index_file, bind, try_except, call, get, modify,
    raise, ret, new_calls.
  simpl.
  destruct (respond env (calls s) (files_upload _ _)) as [f|e].
  - simpl. rewrite Hsi.
    destruct (respond env _ (add_files_deferred si f)) as [op|e].
    + simpl. destruct (respond env _ (add_wait op)) as [[]|e];
        intros [= <- <-]; simpl; rewrite <- ?app_assoc, drop_app_length;
        (split; [done|by repeat constructor]).
    + intros [= <- <-]; simpl; rewrite <- ?app_assoc, drop_app_length;
        (split; [done|by repeat constructor]).
  - intros [= <- <-]. simpl. rewrite drop_app_length.
    split; [done|by repeat constructor].
Qed.

Lemma add_file_keeps_single_index_witness :
  let s := Examples.at_start Examples.settled_yandex in
  let s' := (add_file Examples.all_fine (lit "docs/new.txt") s).2 in
  _search_index (self s') = Some 22%N
  /\ Forall (fun c => RAGEngineDocs.is_index_creation c = false)
            (new_calls s s').
Proof.
  intros s s'.
  refine (add_file_keeps_single_index Examples.all_fine s s'
            (lit "docs/new.txt") 22%N
            (add_file Examples.all_fine (lit "docs/new.txt") s).1 _ _).
  - reflexivity.
  - unfold s'. by destruct (add_file _ _ s).
Defined.

(** *** [remove_file] *)

(** The state after [remove_file]. *)
Lemma remove_file_spec env (s : Store YandexRAG.t) source_name :
  NoDup (map fst (_files (self s))) ->
  exists s',
    remove_file env source_name s = (Ok tt, s')
    /\ PyDict.get (_files (self s')) source_name = None
    /\ (forall other, source_name <> other ->
           PyDict.get (_files (self s')) other
           = PyDict.get (_files (self s)) other)
    /\ NoDup (map fst (_files (self s')))
    /\ _search_index (self s') = _search_index (self s)
    /\ _assistant (self s') = _assistant (self s)
    /\ match PyDict.get (_files (self s)) source_name with
       | Some fid =>
         if bool_decide (fid = []) then calls s' = calls s
         else exists l, calls s' = calls s ++ files_get fid :: l
       | None => s' = s
       end.
Proof.
  intros Hnd. unfold remove_file, bind, get, modify, ret. simpl.
  destruct (PyDict.get (_files (self s)) source_name) as [fid|] eqn:Hg.
  - destruct (bool_decide (fid = [])) eqn:Hfid.
    + eexists. split; [done|]. simpl.
      split; [by apply dict_get_remove|].
      split; [intros; by apply dict_get_remove_ne|].
      split; [by apply dict_NoDup_remove|]. done.
    + unfold delete_remote_file, best_effort, try_except, bind, call, ret.
      simpl.
      destruct (respond env (calls s) (files_get fid)) as [file|e].
      * simpl. destruct (respond env _ (file_delete file)) as [[]|e];
          (eexists; split; [done|]); simpl;
          (split; [by apply dict_get_remove|]);
          (split; [intros; by apply dict_get_remove_ne|]);
          (split; [by apply dict_NoDup_remove|]);
          (split; [done|]); (split; [done|]);
          rewrite <- app_assoc; eauto.
      * eexists. split; [done|]. simpl.
        split; [by apply dict_get_remove|].
        split; [intros; by apply dict_get_remove_ne|].
        split; [by apply dict_NoDup_remove|].
        split; [done|]. split; [done|]. eauto.
  - eexists. split; [done|]. simpl.
    rewrite (dict_remove_absent _ _ Hg).
    split; [done|]. split; [done|]. split; [done|].
    split; [done|]. split; [done|].
    by destruct s as [[] ? ?].
Qed.

(** X16.  [remove_file] always succeeds and forgets the name (keys
    being unique, as in any [dict]): the name is no longer tracked,
    every other name is mapped as before, and index, assistant and
    flag are untouched.  For a tracked name with a non-empty id the
    first call fetches that remote file; for a name that is not
    tracked nothing is called and nothing changes. *)
Theorem remove_file_forgets env (s : Store YandexRAG.t) source_name :
  NoDup (map fst (_files (self s))) ->
  exists s',
    remove_file env source_name s = (Ok tt, s')
    /\ PyDict.get (_files (self s')) source_name = None
    /\ (forall other, source_name <> other ->
           PyDict.get (_files (self s')) other
           = PyDict.get (_files (self s)) other)
    /\ NoDup (map fst (_files (self s')))
    /\ _search_index (self s') = _search_index (self s)
    /\ _assistant (self s') = _assistant (self s)
    /\ match PyDict.get (_files (self s)) source_name with
       | Some fid =>
         if bool_decide (fid = []) then calls s' = calls s
         else exists l, calls s' = calls s ++ files_get fid :: l
       | None => s' = s
       end.
Proof. intros. eapply remove_file_spec; eauto. Qed.

Lemma remove_file_forgets_witness :
  exists s',
    remove_file MoreExamples.deletions_fail (lit "law.txt")
                (Examples.at_start Examples.settled_yandex) = (Ok tt, s')
    /\ PyDict.get (_files (self s')) (lit "law.txt") = None
    /\ calls s' = [files_get (lit "file-1"); file_delete 11%N].
Proof.
  destruct (remove_file_forgets MoreExamples.deletions_fail
              (Examples.at_start Examples.settled_yandex) (lit "law.txt"))
    as (s' & Hr & Hg & _).
  - vm_compute. repeat constructor. intros H. by inversion H.
  - exists s'. split; [done|]. split; [done|].
    assert ((Ok tt, s')
            = (Ok tt,
               {| self := set_files [] Examples.settled_yandex;
                  calls := [files_get (lit "file-1"); file_delete 11%N];
                  slept := [] |})) as [= ->]; [|done].
    rewrite <- Hr. vm_compute. reflexivity.
Defined.

(** *** Adding and removing *)

Lemma dict_keys_set d k v x :
  In x (map fst (PyDict.set d k v)) <-> x = k \/ In x (map fst d).
Proof.
  induction d as [|[k0 v0] d IH]; simpl; [intuition congruence|].
  destruct (bool_decide (k0 = k)) eqn:E; simpl.
  - apply bool_decide_eq_true in E as ->. intuition congruence.
  - rewrite IH. intuition congruence.
Qed.

Lemma dict_NoDup_set d k v :
  NoDup (map fst d) -> NoDup (map fst (PyDict.set d k v)).
Proof.
  induction d as [|[k0 v0] d IH]; simpl.
  - intros _. apply NoDup_singleton.
  - intros Hnd. apply NoDup_cons in Hnd as [Hnotin Hnd].
    destruct (bool_decide (k0 = k)) eqn:E; simpl.
    + apply NoDup_cons. done.
    + apply bool_decide_eq_false in E. apply NoDup_cons.
      split; [|by apply IH].
      rewrite list_elem_of_In, dict_keys_set. intros [->|H]; [done|].
      by rewrite <- list_elem_of_In in H.
Qed.

Lemma add_file_keeps_keys_unique env (s s' : Store YandexRAG.t) file_path r :
  NoDup (map fst (_files (self s))) ->
  add_file env file_path s = (r, s') ->
  NoDup (map fst (_files (self s'))).
Proof.
  intros Hnd.
  unfold add_file, index_file, bind, try_except, call, get, modify,
    raise, ret.
  simpl.
  destruct (respond env (calls s) (files_upload _ _)) as [f|e];
    [|by intros [= <- <-]].
  simpl. destruct (_search_index (self s)) as [si|].
  - destruct (respond env _ (add_files_deferred si f)) as [op|e];
      [|intros [= <- <-]; by apply dict_NoDup_set].
    simpl. destruct (respond env _ (add_wait op)) as [[]|e];
      intros [= <- <-]; by apply dict_NoDup_set.
  - destruct (respond env _ (search_indexes_create_deferred f))
      as [op|e]; [|intros [= <- <-]; by apply dict_NoDup_set].
    simpl. destruct (respond env _ (create_wait op)) as [si|e];
      intros [= <- <-]; by apply dict_NoDup_set.
Qed.

(** X17.  Adding a file and then removing it again by the returned
    name leaves the tracked names as they were before, apart from that
    name, which is no longer tracked; the removal cannot fail, and the
    flag set by the addition stays set. *)
Theorem add_then_remove_round_trip
    env (s s1 : Store YandexRAG.t) file_path name :
  NoDup (map fst (_files (self s))) ->
  add_file env file_path s = (Ok name, s1) ->
  exists s2,
    remove_file env name s1 = (Ok tt, s2)
    /\ PyDict.get (_files (self s2)) name = None
    /\ (forall other, name <> other ->
           PyDict.get (_files (self s2)) other
           = PyDict.get (_files (self s)) other)
    /\ _index_dirty (self s2) = true.
Proof.
  intros Hnd Hadd.
  pose proof (add_file_keeps_keys_unique _ _ _ _ _ Hnd Hadd) as Hnd1.
  pose proof (add_file_ok_dirty _ _ _ _ _ Hadd) as Hdirty.
  destruct (add_file_ok_spec _ _ _ _ _ Hadd) as (_ & _ & Hother & _).
  destruct (remove_file_spec env s1 name Hnd1)
    as (s2 & Hr & Hget & Hother2 & _).
  destruct (remove_file_ok env name s1) as (s2' & Hr' & Hd).
  rewrite Hr in Hr'. injection Hr' as <-.
  exists s2. split; [done|]. split; [done|]. split.
  - intros other Hne. by rewrite Hother2, Hother.
  - by rewrite Hd.
Qed.

Lemma add_then_remove_round_trip_witness :
  let s := Examples.at_start Examples.settled_yandex in
  exists s2,
    remove_file Examples.all_fine (lit "new.txt")
                (add_file Examples.all_fine (lit "docs/new.txt") s).2
    = (Ok tt, s2)
    /\ PyDict.get (_files (self s2)) (lit "new.txt") = None
    /\ (forall other, lit "new.txt" <> other ->
           PyDict.get (_files (self s2)) other
           = PyDict.get (_files (self s)) other)
    /\ _index_dirty (self s2) = true.
Proof.
  intros s.
  refine (add_then_remove_round_trip Examples.all_fine s
            (add_file Examples.all_fine (lit "docs/new.txt") s).2
            (lit "docs/new.txt") (lit "new.txt") _ _).
  - vm_compute. repeat constructor. intros H. by inversion H.
  - vm_compute. reflexivity.
Defined.

(** *** [clear_all] *)




End IndexMore.

(** ** More about the analysis *)

Module AnalysisMore.
Import PyStr rag_engine IndexMore RetryMore.

Lemma analysis_error_not_empty x :
  lit "Ошибка анализа через YandexGPT:" ++ x <> [].
Proof. vm_compute. discriminate. Qed.

(** X19.  The only exception that can come out of
    [YandexRAG.analyze] is one raised by [_ensure_assistant]: once the
    assistant step has returned, [analyze] returns a string that is
    not empty, whatever the thread and run calls do. *)
Theorem yandex_analyze_raises_only_from_ensure
    env (s s' : Store YandexRAG.t) query r :
  YandexRAG.analyze env query s = (r, s') ->
  (exists text, r = Ok text /\ text <> [])
  \/ (exists e, r = Raise e
                /\ YandexRAG._ensure_assistant env s = (Raise e, s')).
Proof.
  unfold YandexRAG.analyze. unfold bind at 1.
  destruct (YandexRAG._ensure_assistant env s) as [[[]|e] s1] eqn:E.
  2: { intros [= <- <-]. right. eauto. }
  unfold bind at 1. unfold get at 1.
  destruct (YandexRAG._assistant (self s1)) as [a|].
  2: { intros [= <- <-]. left. eexists. split; [done|].
       vm_compute. discriminate. }
  unfold try_except, bind, call, ret. cbn [self calls slept].
  destruct (respond env (calls s1) threads_create) as [thread|e].
  2: { intros [= <- <-]. left. eexists. split; [done|].
       apply analysis_error_not_empty. }
  cbn [self calls slept].
  destruct (respond env _ (thread_write thread query)) as [[]|e].
  2: { intros [= <- <-]. left. eexists. split; [done|].
       apply analysis_error_not_empty. }
  cbn [self calls slept].
  destruct (respond env _ (assistant_run a thread)) as [run|e].
  2: { intros [= <- <-]. left. eexists. split; [done|].
       apply analysis_error_not_empty. }
  cbn [self calls slept].
  destruct (respond env _ (run_wait run)) as [result_text|e].
  2: { intros [= <- <-]. left. eexists. split; [done|].
       apply analysis_error_not_empty. }
  cbn [self calls slept]. cbv zeta.
  set (reply := match result_text with
                | Some tx => if bool_decide (tx = []) then [] else tx
                | None => []
                end).
  assert (lit "(YandexGPT вернул пустой ответ.)" <> []) as Hblank
    by (vm_compute; discriminate).
  destruct (respond env _ (thread_delete thread)) as [[]|e];
    cbn [self calls slept];
    destruct (bool_decide (strip reply = [])) eqn:Eb;
    intros [= <- <-]; left; eexists; (split; [done|]); try done;
    intros Hr; rewrite Hr in Eb; by vm_compute in Eb.
Qed.

Lemma yandex_analyze_raises_only_from_ensure_witness :
  exists text s',
    YandexRAG.analyze MoreExamples.run_fails (lit "Скидка 50%")
                      (Examples.at_start Examples.settled_yandex)
    = (Ok text, s')
    /\ text <> [].
Proof.
  destruct (YandexRAG.analyze MoreExamples.run_fails (lit "Скидка 50%")
              (Examples.at_start Examples.settled_yandex)) as [r s'] eqn:E.
  destruct (yandex_analyze_raises_only_from_ensure _ _ _ _ _ E)
    as [(text & -> & Hne)|(e & -> & He)].
  - by exists text, s'.
  - exfalso. revert He. vm_compute. discriminate.
Defined.

(** X20.  Without Yandex credentials ([yandex] is [None]) the engine
    works in a degraded mode in which nothing is ever called and
    nothing changes: [analyze] returns the "not configured" message,
    or the "nothing submitted" one when nothing usable was given;
    [add_file] raises its [RuntimeError]; [remove_document] and
    [clear_all] do nothing; [document_count] is 0. *)
Theorem unconfigured_engine_makes_no_call
    env (s : Store RAGEngine.t) text image_path file_path source_name :
  RAGEngine.yandex (self s) = None ->
  RAGEngine.analyze env text image_path s
  = (Ok (if RAGEngine.image_given env image_path
            || negb (bool_decide (strip text = []))
         then RAGEngine.NOT_CONFIGURED
         else RAGEngine.NOTHING_SUBMITTED), s)
  /\ RAGEngineDocs.add_file env file_path s
     = (Raise (RuntimeError
                 (lit "Yandex Cloud не настроен. Укажите Folder ID и API Key.")
                 None), s)
  /\ RAGEngineDocs.remove_document env source_name s = (Ok tt, s)
  /\ RAGEngineDocs.clear_all env s = (Ok tt, s)
  /\ RAGEngine.document_count (self s) = 0.
Proof.
  intros Hy. split; [|split; [|split; [|split]]].
  - unfold RAGEngine.analyze, RAGEngine.analyze_image,
      RAGEngine.analyze_text, bind, get, ret.
    destruct (RAGEngine.image_given env image_path); cbn [orb].
    + by rewrite Hy.
    + destruct (negb (bool_decide (strip text = []))); [|done].
      by rewrite Hy.
  - unfold RAGEngineDocs.add_file, bind, get, raise. by rewrite Hy.
  - unfold RAGEngineDocs.remove_document, bind, get, ret. by rewrite Hy.
  - unfold RAGEngineDocs.clear_all, bind, get, ret. by rewrite Hy.
  - unfold RAGEngine.document_count. by rewrite Hy.
Qed.

Lemma unconfigured_engine_makes_no_call_witness :
  let s := Examples.at_start (Examples.engine None) in
  RAGEngine.analyze Examples.all_fine (lit "Скидка 50%")
                    (Some (lit "ad.png")) s
  = (Ok RAGEngine.NOT_CONFIGURED, s)
  /\ RAGEngineDocs.add_file Examples.all_fine (lit "docs/law.txt") s
     = (Raise (RuntimeError
                 (lit "Yandex Cloud не настроен. Укажите Folder ID и API Key.")
                 None), s)
  /\ RAGEngineDocs.remove_document Examples.all_fine (lit "law.txt") s
     = (Ok tt, s)
  /\ RAGEngineDocs.clear_all Examples.all_fine s = (Ok tt, s)
  /\ RAGEngine.document_count (self s) = 0.
Proof.
  intros s.
  refine (unconfigured_engine_makes_no_call Examples.all_fine s
            (lit "Скидка 50%") (Some (lit "ad.png"))
            (lit "docs/law.txt") (lit "law.txt") _).
  reflexivity.
Defined.

(** X21.  An image analysis in which the vision model keeps
    answering with a rate-limit error (image opened, not larger than
    2048 in either dimension): the model is invoked 4 times
    ([MAX_RETRIES + 1]), with sleeps of 5, 10 and 20 seconds in
    between, and [analyze_image] then returns the Gemini error message
    with the last error's text; the agent is not contacted. *)
Theorem analyze_image_gives_up_after_retries
    env (s : Store RAGEngine.t) y image_path text img e_last :
  RAGEngine.yandex (self s) = Some y ->
  respond env (calls s) (Image_open image_path) = Ok img ->
  Z.max (width img) (height img) <= 2048 ->
  (forall i, (i <= 3)%nat ->
     exists e,
       respond env ((calls s ++ [Image_open image_path])
                    ++ repeat (generate_content img) i)
               (generate_content img) = Raise e
       /\ is_rate_limit e = true) ->
  respond env ((calls s ++ [Image_open image_path])
               ++ repeat (generate_content img) 3)
          (generate_content img) = Raise e_last ->
  RAGEngine.analyze_image env image_path text s
  = (Ok (lit "Ошибка описания изображения (Gemini):" ++ nl
         ++ slice_to (str_of_exn e_last) 200),
     {| self := self s;
        calls := (calls s ++ [Image_open image_path])
                 ++ repeat (generate_content img) 4;
        slept := slept s ++ [5; 10; 20] |}).
Proof.
  intros Hy Hopen Hsize Hfail Hlast.
  unfold RAGEngine.analyze_image. unfold bind at 1. unfold get at 1.
  cbn [self]. rewrite Hy. unfold bind at 1. unfold try_except at 1.
  unfold bind at 1. unfold RAGEngine.describe_image.
  unfold bind at 1. unfold call at 1. rewrite Hopen.
  unfold bind at 1.
  rewrite (proj2 (Z.ltb_ge _ _) Hsize). unfold ret at 1.
  unfold bind at 1. change MAX_RETRIES with (Z.of_nat 3).
  rewrite (retry_call_exhausted env (generate_content img) 3
             RETRY_BASE_DELAY _ e_last); [reflexivity|done|exact Hfail|
                                          exact Hlast].
Qed.

Lemma analyze_image_gives_up_after_retries_witness :
  let s := Examples.at_start (Examples.engine (Some Examples.settled_yandex)) in
  RAGEngine.analyze_image MoreExamples.always_rate_limited (lit "ad.png")
                          (lit "Скидка 50%") s
  = (Ok (lit "Ошибка описания изображения (Gemini):" ++ nl
         ++ lit "429 Too Many Requests"),
     {| self := self s;
        calls := Image_open (lit "ad.png")
                 :: repeat (generate_content Examples.sample_image) 4;
        slept := [5; 10; 20] |}).
Proof.
  intros s.
  refine (analyze_image_gives_up_after_retries
            MoreExamples.always_rate_limited s Examples.settled_yandex
            (lit "ad.png") (lit "Скидка 50%") Examples.sample_image
            (ServiceError (lit "429 Too Many Requests")) _ _ _ _ _).
  - reflexivity.
  - vm_compute. reflexivity.
  - vm_compute. discriminate.
  - intros i Hi. exists (ServiceError (lit "429 Too Many Requests")).
    split; vm_compute; reflexivity.
  - vm_compute. reflexivity.
Defined.

End AnalysisMore.

(** ** Construction, image description and document loading *)

Module ConstructionMore.
Import PyStr rag_engine rag_engine.YandexRAG YandexRAGInit IndexProps
  IndexMore.

Lemma restore_files_spec remote fids :
  forall o,
    _search_index (restore_files remote fids o) = _search_index o
    /\ _assistant (restore_files remote fids o) = _assistant o
    /\ _index_dirty (restore_files remote fids o) = _index_dirty o
    /\ (forall k, Forall (fun fid => restored_name remote fid <> k) fids ->
           PyDict.get (_files (restore_files remote fids o)) k
           = PyDict.get (_files o) k)
    /\ (forall fid, In fid fids ->
           exists fid',
             PyDict.get (_files (restore_files remote fids o))
                        (restored_name remote fid) = Some fid'
             /\ In fid' fids
             /\ restored_name remote fid' = restored_name remote fid).
Proof.
  induction fids as [|f fids IH]; intros o; cbn [restore_files].
  - repeat split; try done.
  - destruct (IH (set_files (PyDict.set (_files o) (restored_name remote f) f)
                            o)) as (H1 & H2 & H3 & H4 & H5).
    split; [by rewrite H1|]. split; [by rewrite H2|].
    split; [by rewrite H3|]. split.
    + intros k Hk. apply Forall_cons in Hk as [Hf Hk].
      rewrite (H4 k Hk). simpl. by apply dict_get_set_ne.
    + intros fid [<-|Hin].
      * destruct (decide (Exists (fun g => restored_name remote g
                                           = restored_name remote f) fids))
          as [Hex|Hno].
        -- apply Exists_exists in Hex as (g & Hg & Heq).
           apply list_elem_of_In in Hg.
           destruct (H5 g Hg) as (fid' & Hget & Hin' & Hn).
           exists fid'. split; [|split; [by right|congruence]].
           set (o1 := set_files _ o) in *. by rewrite <- Heq.
        -- exists f. split; [|split; [by left|done]].
           rewrite H4.
           ++ simpl. apply dict_get_set.
           ++ apply Forall_forall. intros g Hg Heq. apply Hno.
              apply Exists_exists. by exists g.
      * destruct (H5 fid Hin) as (fid' & Hget & Hin' & Hn).
        exists fid'. split; [done|]. split; [by right|done].
Qed.

Lemma adopt_first_skips remote before rest o :
  Forall (fun x => is_ours x = false) before ->
  forall after,
    adopt_first remote (before ++ after) rest o
    = adopt_first remote after rest o.
Proof.
  induction 1 as [|x before Hx _ IH]; intros after; [done|].
  cbn [app adopt_first]. rewrite Hx. apply IH.
Qed.

(** X22.  A [YandexRAG] made by [__init__] has the flag set and no
    assistant, whatever the remote listing does (exceptions of the
    listing are swallowed).  When the first index labelled as ours is
    [si], it is adopted and every file id it lists is tracked under
    its restored name (the remote name, or the id itself when the
    name cannot be looked up).  When no listed index is ours, nothing
    is adopted and nothing is tracked. *)
Theorem init_restores_labelled_index remote :
  _index_dirty (__init__ remote) = true
  /\ _assistant (__init__ remote) = None
  /\ (forall before si after,
         items (search_indexes remote) = before ++ si :: after ->
         Forall (fun x => is_ours x = false) before ->
         is_ours si = true ->
         _search_index (__init__ remote) = Some (index_ref si)
         /\ forall fid, In fid (items (index_files si)) ->
              exists fid',
                PyDict.get (_files (__init__ remote))
                           (restored_name remote fid) = Some fid'
                /\ In fid' (items (index_files si))
                /\ restored_name remote fid' = restored_name remote fid)
  /\ (Forall (fun x => is_ours x = false) (items (search_indexes remote)) ->
      _search_index (__init__ remote) = None
      /\ _files (__init__ remote) = []).
Proof.
  unfold __init__, _load_existing_index.
  set (o0 := {| _search_index := None; _files := []; _assistant := None;
                _index_dirty := true |}).
  assert (forall l rest,
             _index_dirty (adopt_first remote l rest o0).2 = true
             /\ _assistant (adopt_first remote l rest o0).2 = None) as Hinv.
  { intros l rest. induction l as [|x l IH]; cbn [adopt_first].
    - by destruct rest.
    - destruct (is_ours x); [|exact IH].
      destruct (restore_files_spec remote (items (index_files x))
                  (set_search_index (Some (index_ref x)) o0))
        as (_ & H2 & H3 & _).
      destruct (broken (index_files x)); simpl in H2, H3 |- *;
        by rewrite ?H2, ?H3. }
  split; [apply Hinv|]. split; [apply Hinv|]. split.
  - intros before si after Hitems Hbefore Hsi.
    rewrite Hitems, (adopt_first_skips _ _ _ _ Hbefore).
    cbn [adopt_first]. rewrite Hsi.
    destruct (restore_files_spec remote (items (index_files si))
                (set_search_index (Some (index_ref si)) o0))
      as (H1 & _ & _ & _ & H5).
    destruct (broken (index_files si)); simpl in H1, H5 |- *;
      by rewrite ?H1.
  - intros Hnone.
    rewrite <- (app_nil_r (items (search_indexes remote))).
    rewrite (adopt_first_skips _ _ _ _ Hnone). cbn [adopt_first].
    by destruct (broken (search_indexes remote)).
Qed.

Lemma init_restores_labelled_index_witness :
  _search_index (__init__ MoreExamples.two_indexes) = Some 22%N
  /\ forall fid, In fid [lit "f1"; lit "f2"] ->
       exists fid',
         PyDict.get (_files (__init__ MoreExamples.two_indexes))
                    (restored_name MoreExamples.two_indexes fid) = Some fid'
         /\ In fid' [lit "f1"; lit "f2"]
         /\ restored_name MoreExamples.two_indexes fid'
            = restored_name MoreExamples.two_indexes fid.
Proof.
  refine (proj1 (proj2 (proj2 (init_restores_labelled_index
                                 MoreExamples.two_indexes)))
                [MoreExamples.foreign_index] MoreExamples.our_index
                [] _ _ _).
  - reflexivity.
  - repeat constructor.
  - reflexivity.
Defined.

Example init_two_indexes :
  __init__ MoreExamples.two_indexes
  = {| _search_index := Some 22%N;
       _files := [(lit "law.txt", lit "f1"); (lit "f2", lit "f2")];
       _assistant := None;
       _index_dirty := true |}.
Proof. vm_compute. reflexivity. Qed.

End ConstructionMore.

Module DescribeMore.
Import PyStr rag_engine rag_engine.RAGEngine AnalysisProps.

(** After the image is ready, [describe_image] only calls the model
    with that image and reads the response. *)
Lemma describe_tail_calls env img :
  makes_only (fun c => c = generate_content img
                       \/ exists response, c = response_text response)
    (let! response :=
       _retry_call (call env (generate_content img))
                   MAX_RETRIES RETRY_BASE_DELAY in
     call env (response_text response) : M RAGEngine.t _).
Proof.
  apply makes_only_bind.
  - apply makes_only_retry_loop.
    apply (makes_only_call _ env (generate_content img)). by left.
  - intros response.
    apply (makes_only_call _ env (response_text response)). right. eauto.
Qed.

(** X23.  [describe_image] downsizes exactly the images that are
    larger than 2048 in some dimension.  For such an image the call
    after [Image.open] is the resize, and the model only ever gets the
    resized image; any other image goes to the model as opened, and
    no resize is called. *)
Theorem describe_image_resizes_only_large_images
    env (s s' : Store RAGEngine.t) image_path img r :
  respond env (calls s) (Image_open image_path) = Ok img ->
  describe_image env image_path s = (r, s') ->
  if 2048 <? Z.max (width img) (height img)
  then exists l,
         calls s' = calls s ++ Image_open image_path :: image_resize img :: l
         /\ forall img',
              respond env (calls s ++ [Image_open image_path])
                      (image_resize img) = Ok img' ->
              Forall (fun c => forall x, c = generate_content x -> x = img') l
  else exists l,
         calls s' = calls s ++ Image_open image_path :: l
         /\ Forall (fun c => (forall x, c <> image_resize x)
                             /\ forall x, c = generate_content x -> x = img)
                   l.
Proof.
  intros Hopen. unfold describe_image. unfold bind at 1. unfold call at 1.
  rewrite Hopen. unfold bind at 1.
  destruct (2048 <? Z.max (width img) (height img)).
  - unfold call at 1. cbn [self calls slept].
    destruct (respond env (calls s ++ [Image_open image_path])
                      (image_resize img)) as [img'|e].
    + intros H.
      destruct (describe_tail_calls env img' _ _ _ H)
        as (l & Hl & HP & _).
      exists l. cbn [calls] in Hl. rewrite Hl, <- !app_assoc.
      split; [done|]. intros ? [= <-].
      eapply Forall_impl; [exact HP|].
      intros c [->|[response ->]] x; [by intros [= <-]|done].
    + intros [= <- <-]. exists []. cbn [calls].
      rewrite <- !app_assoc. split; [done|]. intros ? [=].
  - unfold ret at 1. intros H.
    destruct (describe_tail_calls env img _ _ _ H) as (l & Hl & HP & _).
    exists l. cbn [calls] in Hl. rewrite Hl, <- !app_assoc.
    split; [done|].
    eapply Forall_impl; [exact HP|].
    intros c [->|[response ->]]; split; try done.
    intros x. by intros [= <-].
Qed.

Lemma describe_image_resizes_only_large_images_witness :
  let s := Examples.at_start (Examples.engine None) in
  exists l,
    calls (describe_image Examples.all_fine (lit "ad.png") s).2
    = calls s ++ Image_open (lit "ad.png") :: l
    /\ Forall (fun c => (forall x, c <> image_resize x)
                        /\ forall x, c = generate_content x
                                     -> x = Examples.sample_image) l.
Proof.
  intros s.
  refine (describe_image_resizes_only_large_images Examples.all_fine s
            (describe_image Examples.all_fine (lit "ad.png") s).2
            (lit "ad.png") Examples.sample_image
            (describe_image Examples.all_fine (lit "ad.png") s).1 _ _).
  - reflexivity.
  - by destruct (describe_image _ _ s).
Defined.

End DescribeMore.

Module LoadingMore.
Import PyStr PyStrFacts DocumentProcessor DocumentLoading ChunkerMore.

Lemma kept_pages_blank pages :
  Forall (fun p => p = None \/ p = Some []) pages -> kept_pages pages = [].
Proof.
  induction 1 as [|p pages [->| ->] _ IH]; simpl; done.
Qed.

Lemma kept_paragraphs_blank paragraphs :
  Forall (fun t => forallb isspace t = true) paragraphs ->
  kept_paragraphs paragraphs = [].
Proof.
  induction 1 as [|t paragraphs Ht _ IH]; simpl; [done|].
  apply strip_nil in Ht. by rewrite (bool_decide_eq_true_2 _ Ht).
Qed.

(** X24.  A PDF none of whose pages yields text, and a DOCX all of
    whose paragraphs are blank, are processed without error into an
    empty list of chunks. *)
Theorem document_without_text_gives_no_chunks self disk fuel file_path :
  (suffix_lower disk file_path = lit ".pdf"
   /\ exists pages, pdf_pages disk file_path = Ok pages
                    /\ Forall (fun p => p = None \/ p = Some []) pages)
  \/ (suffix_lower disk file_path = lit ".docx"
      /\ exists paragraphs,
           docx_paragraphs disk file_path = Ok paragraphs
           /\ Forall (fun t => forallb isspace t = true) paragraphs) ->
  process_document self disk fuel file_path = Some (Ok []).
Proof.
  unfold process_document, load_document, _load_pdf, _load_docx.
  intros [(-> & pages & -> & Hp)|(-> & paragraphs & -> & Hp)].
  - rewrite bool_decide_eq_true_2 by done.
    rewrite (kept_pages_blank _ Hp). cbn [rag_engine.RAGEngine.join_lines].
    by destruct (split_blank self fuel []
                   (name_of disk file_path) eq_refl) as [-> _].
  - rewrite bool_decide_eq_false_2 by (vm_compute; discriminate).
    rewrite bool_decide_eq_true_2 by done.
    rewrite (kept_paragraphs_blank _ Hp).
    cbn [rag_engine.RAGEngine.join_lines].
    by destruct (split_blank self fuel []
                   (name_of disk file_path) eq_refl) as [-> _].
Qed.

Lemma document_without_text_gives_no_chunks_witness :
  process_document defaults MoreExamples.scanned_pdf 0 (lit "docs/scan.pdf")
  = Some (Ok []).
Proof.
  apply (document_without_text_gives_no_chunks defaults
           MoreExamples.scanned_pdf 0 (lit "docs/scan.pdf")).
  left. split; [reflexivity|]. exists [None; Some []].
  split; [reflexivity|].
  constructor; [by left|]. constructor; [by right|]. constructor.
Defined.

(** X25.  For a path whose lowered suffix is none of [.pdf], [.docx]
    and [.txt], [load_document] raises the [ValueError] that names the
    suffix, whatever is on the disk, and [process_document] raises it
    too without chunking anything. *)
Theorem unsupported_suffix_is_refused self disk fuel file_path :
  suffix_lower disk file_path <> lit ".pdf" ->
  suffix_lower disk file_path <> lit ".docx" ->
  suffix_lower disk file_path <> lit ".txt" ->
  load_document disk file_path
  = Raise (ValueError (lit "Неподдерживаемый формат файла: "
                       ++ suffix_lower disk file_path))
  /\ process_document self disk fuel file_path
     = Some (Raise (ValueError (lit "Неподдерживаемый формат файла: "
                                ++ suffix_lower disk file_path))).
Proof.
  intros H1 H2 H3.
  assert (load_document disk file_path
          = Raise (ValueError (lit "Неподдерживаемый формат файла: "
                               ++ suffix_lower disk file_path))) as H.
  { unfold load_document. by rewrite !bool_decide_eq_false_2. }
  split; [done|]. unfold process_document. by rewrite H.
Qed.

Lemma unsupported_suffix_is_refused_witness :
  load_document MoreExamples.odt_disk (lit "docs/law.odt")
  = Raise (ValueError (lit "Неподдерживаемый формат файла: " ++ lit ".odt"))
  /\ process_document defaults MoreExamples.odt_disk 0 (lit "docs/law.odt")
     = Some (Raise (ValueError (lit "Неподдерживаемый формат файла: "
                                ++ lit ".odt"))).
Proof.
  apply (unsupported_suffix_is_refused defaults MoreExamples.odt_disk 0
           (lit "docs/law.odt")); vm_compute; discriminate.
Defined.

End LoadingMore.
